(** * GitHub issue tools: a shallow embedding of [tools/github_tools.py]

    The four tool classes of [github_tools.py] ([GetNewIssues],
    [AddLabelToIssue], [AssignIssue], [CommentOnIssue]) are embedded as
    functions over an explicit world: the process environment, the remote
    tracker, a schedule of remote failures and the log of remote calls.
    Python's [try] / [except] is an error monad over that world. *)

From Stdlib Require Import List ZArith NArith Lia Bool Ascii String DecimalString.
From Stdlib Require Import Sorted.
Import ListNotations.

(* ====================================================================== *)
(** ** Python values *)
(* ====================================================================== *)

(** A Python [str] is a sequence of Unicode code points: [len], slicing and
    [strip] of the source all count code points, not bytes. *)
Definition char := N.
Definition str := list char.

(** ASCII literals of the source. *)
Definition lit (s : string) : str := map N_of_ascii (list_ascii_of_string s).

Fixpoint str_eqb (a b : str) : bool :=
  match a, b with
  | [], [] => true
  | x :: a', y :: b' => N.eqb x y && str_eqb a' b'
  | _, _ => false
  end.

(** [x in l] on a list of [str]. *)
Definition mem (x : str) (l : list str) : bool := existsb (str_eqb x) l.

(** [s.startswith(p)]. *)
Fixpoint startswith (p s : str) : bool :=
  match p, s with
  | [], _ => true
  | x :: p', y :: s' => N.eqb x y && startswith p' s'
  | _ :: _, [] => false
  end.

(** [str(n)] for an [int]. *)
Definition str_of_int (n : Z) : str := lit (NilEmpty.string_of_int (Z.to_int n)).

(** [sep.join(l)]. *)
Fixpoint join (sep : str) (l : list str) : str :=
  match l with
  | [] => []
  | [x] => x
  | x :: rest => x ++ sep ++ join sep rest
  end.

(** The characters [str.strip()] removes: CPython's Unicode whitespace. *)
Definition isspace (c : char) : bool :=
  ((9 <=? c) && (c <=? 13) || (28 <=? c) && (c <=? 32)
   || (c =? 133) || (c =? 160) || (c =? 5760)
   || (8192 <=? c) && (c <=? 8202)
   || (c =? 8232) || (c =? 8233) || (c =? 8239) || (c =? 8287)
   || (c =? 12288))%N.

Fixpoint lstrip (s : str) : str :=
  match s with
  | [] => []
  | c :: s' => if isspace c then lstrip s' else s
  end.

Definition rstrip (s : str) : str := rev (lstrip (rev s)).

Definition strip (s : str) : str := rstrip (lstrip s).

(** [s.replace("Z", "+00:00")]: every occurrence of the one-character
    pattern is replaced. *)
Definition replace_Z (s : str) : str :=
  flat_map (fun c => if (c =? 90)%N then lit "+00:00" else [c]) s.

(** Truthiness of a list or string: non-empty. *)
Definition truthy {A} (l : list A) : bool :=
  match l with [] => false | _ :: _ => true end.

(** Exceptions the tools can meet: PyGithub's [GithubException] with its
    HTTP status, and any other [Exception].  Each carries [str(e)]. *)
Inductive exn :=
| GithubException (status : Z) (msg : str)
| OtherException (msg : str).

Definition exn_str (e : exn) : str :=
  match e with GithubException _ m => m | OtherException m => m end.

(** A [datetime]: wall-clock microseconds and, when timezone-aware, the UTC
    offset.  Python refuses to order a naive against an aware value. *)
Record datetime := { wall : Z; utcoffset : option Z }.

Definition naive_aware_msg : str :=
  lit "can't compare offset-naive and offset-aware datetimes".

(** [a < b] on datetimes. *)
Definition dt_lt (a b : datetime) : exn + bool :=
  match utcoffset a, utcoffset b with
  | None, None => inr (wall a <? wall b)%Z
  | Some oa, Some ob => inr (wall a - oa <? wall b - ob)%Z
  | _, _ => inl (OtherException naive_aware_msg)
  end.

(** The instant a datetime denotes, a naive one read as UTC: the key the
    tracker sorts by. *)
Definition instant (d : datetime) : Z :=
  (wall d - match utcoffset d with Some o => o | None => 0 end)%Z.

(** Library functions the source calls and whose text output is theirs to
    choose: taken as given, the theorems hold for every choice. *)
Record Lib := {
  (** [datetime.fromisoformat]; [None] is [ValueError]. *)
  fromisoformat : str -> option datetime;
  (** [datetime.isoformat]. *)
  isoformat : datetime -> str;
  (** How an f-string shows a [list[str]]. *)
  repr_strs : list str -> str;
  (** What [issue.labels] reports after [issue.add_to_labels], from the
      labels the object held and the tracker's labels after the write. *)
  labels_after_add : list str -> list str -> list str;
  (** The same for [issue.assignees] after [issue.add_to_assignees]. *)
  assignees_after_add : list str -> list str -> list str
}.

(* ====================================================================== *)
(** ** The remote tracker *)
(* ====================================================================== *)

Module Issue.
Record t := {
  number : Z;
  title : str;
  body : option str;
  labels : list str;
  assignees : list str;
  created_at : datetime;
  html_url : str;
  state : str;
  pull_request : bool;
  (** the issue's comment stream, oldest first *)
  thread : list str
}.
End Issue.

Module Repo.
Record t := {
  full_name : str;
  (** the repository's label catalog, [repo.get_labels()] *)
  catalog : list str;
  (** issues and pull requests share one number space *)
  issues : list Issue.t
}.
End Repo.

Definition tracker := list Repo.t.

Fixpoint find_issue (n : Z) (l : list Issue.t) : option Issue.t :=
  match l with
  | [] => None
  | i :: l' => if (Issue.number i =? n)%Z then Some i else find_issue n l'
  end.

Fixpoint find_repo (name : str) (t : tracker) : option Repo.t :=
  match t with
  | [] => None
  | r :: t' => if str_eqb (Repo.full_name r) name then Some r else find_repo name t'
  end.

Fixpoint update_issue (n : Z) (f : Issue.t -> Issue.t) (l : list Issue.t)
  : list Issue.t :=
  match l with
  | [] => []
  | i :: l' => if (Issue.number i =? n)%Z then f i :: l' else i :: update_issue n f l'
  end.

Fixpoint update_repo (name : str) (f : Repo.t -> Repo.t) (t : tracker) : tracker :=
  match t with
  | [] => []
  | r :: t' =>
      if str_eqb (Repo.full_name r) name then f r :: t' else r :: update_repo name f t'
  end.

(** The tracker's write is a set union: names already present stay once,
    new names are appended once. *)
Fixpoint union (old new : list str) : list str :=
  match new with
  | [] => old
  | x :: new' => if mem x old then union old new' else union (old ++ [x]) new'
  end.

Definition set_labels (ls : list str) (i : Issue.t) : Issue.t :=
  {| Issue.number := Issue.number i; Issue.title := Issue.title i;
     Issue.body := Issue.body i; Issue.labels := ls;
     Issue.assignees := Issue.assignees i; Issue.created_at := Issue.created_at i;
     Issue.html_url := Issue.html_url i; Issue.state := Issue.state i;
     Issue.pull_request := Issue.pull_request i; Issue.thread := Issue.thread i |}.

Definition set_assignees (us : list str) (i : Issue.t) : Issue.t :=
  {| Issue.number := Issue.number i; Issue.title := Issue.title i;
     Issue.body := Issue.body i; Issue.labels := Issue.labels i;
     Issue.assignees := us; Issue.created_at := Issue.created_at i;
     Issue.html_url := Issue.html_url i; Issue.state := Issue.state i;
     Issue.pull_request := Issue.pull_request i; Issue.thread := Issue.thread i |}.

Definition add_comment (c : str) (i : Issue.t) : Issue.t :=
  {| Issue.number := Issue.number i; Issue.title := Issue.title i;
     Issue.body := Issue.body i; Issue.labels := Issue.labels i;
     Issue.assignees := Issue.assignees i; Issue.created_at := Issue.created_at i;
     Issue.html_url := Issue.html_url i; Issue.state := Issue.state i;
     Issue.pull_request := Issue.pull_request i;
     Issue.thread := Issue.thread i ++ [c] |}.

Definition set_issues (l : list Issue.t) (r : Repo.t) : Repo.t :=
  {| Repo.full_name := Repo.full_name r; Repo.catalog := Repo.catalog r;
     Repo.issues := l |}.

(** Listing with [state="open", sort="created", direction="desc"]: the
    tracker filters and sorts. *)
Fixpoint insert_desc (i : Issue.t) (l : list Issue.t) : list Issue.t :=
  match l with
  | [] => [i]
  | j :: l' =>
      if (instant (Issue.created_at j) <? instant (Issue.created_at i))%Z
      then i :: l
      else j :: insert_desc i l'
  end.

Definition sort_desc (l : list Issue.t) : list Issue.t :=
  fold_right insert_desc [] l.

Definition is_open (i : Issue.t) : bool := str_eqb (Issue.state i) (lit "open").

Definition open_desc (r : Repo.t) : list Issue.t :=
  sort_desc (filter is_open (Repo.issues r)).

Definition not_found : exn := GithubException 404 (lit "404 Not Found").

(* ====================================================================== *)
(** ** The world and the tool monad *)
(* ====================================================================== *)

(** Remote calls, as the tools issue them through PyGithub. *)
Inductive event :=
| GetRepo (repository : str)
| GetIssue (repository : str) (issue_number : Z)
| ListIssues (repository : str)
| ListLabels (repository : str)
| AddLabels (repository : str) (issue_number : Z) (names : list str)
| AddAssignees (repository : str) (issue_number : Z) (logins : list str)
| CreateComment (repository : str) (issue_number : Z) (text : str).

Definition is_write (ev : event) : bool :=
  match ev with
  | AddLabels _ _ _ | AddAssignees _ _ _ | CreateComment _ _ _ => true
  | _ => false
  end.

(** [token] is [os.getenv("GITHUB_TOKEN")].  [faults] schedules what goes
    wrong remotely: the k-th remote call from now raises the k-th entry when
    it is [Some e] (a transport error, a rejection, a permission error) and
    reaches the tracker otherwise.  [calls] logs every remote call made. *)
Record world := {
  token : option str;
  remote : tracker;
  faults : list (option exn);
  calls : list event
}.

Definition M (A : Type) : Type := world -> (exn + A) * world.

Definition ret {A} (a : A) : M A := fun w => (inr a, w).

Definition raise {A} (e : exn) : M A := fun w => (inl e, w).

Definition bind {A B} (c : M A) (k : A -> M B) : M B :=
  fun w => match c w with
           | (inr a, w') => k a w'
           | (inl e, w') => (inl e, w')
           end.

Notation "x <- c ;; k" := (bind c (fun x => k))
  (at level 61, c at next level, right associativity).
Notation "c ;;; k" := (bind c (fun _ => k))
  (at level 61, right associativity).

(** An inner [try: ... except ...:]. *)
Definition catch {A} (c : M A) (h : exn -> M A) : M A :=
  fun w => match c w with
           | (inr a, w') => (inr a, w')
           | (inl e, w') => h e w'
           end.

(** The [try] that wraps a whole [_run]: a tool always returns a result. *)
Definition try_except {A} (c : M A) (h : exn -> A) : world -> A * world :=
  fun w => match c w with
           | (inr a, w') => (a, w')
           | (inl e, w') => (h e, w')
           end.

Definition lift {A} (r : exn + A) : M A :=
  fun w => match r with inl e => (inl e, w) | inr a => (inr a, w) end.

Definition getenv_GITHUB_TOKEN : M (option str) := fun w => (inr (token w), w).

(** [not github_token]: unset or empty. *)
Definition missing (t : option str) : bool :=
  match t with None => true | Some s => negb (truthy s) end.

(** The world after one remote call [ev] that left the tracker as [t]. *)
Definition step (ev : event) (t : tracker) (w : world) : world :=
  {| token := token w; remote := t; faults := tl (faults w);
     calls := calls w ++ [ev] |}.

(** One remote call: logged, then failed by the schedule or answered by the
    tracker. *)
Definition remote_call {A} (ev : event)
    (answer : tracker -> exn + (A * tracker)) : M A :=
  fun w =>
    match hd None (faults w) with
    | Some e => (inl e, step ev (remote w) w)
    | None =>
        match answer (remote w) with
        | inl e => (inl e, step ev (remote w) w)
        | inr (a, t') => (inr a, step ev t' w)
        end
    end.

(** No failure is scheduled for the next [k] remote calls: each of them
    reaches the tracker. *)
Definition quiet (k : nat) (w : world) : bool :=
  forallb (fun f => match f with None => true | Some _ => false end)
    (firstn k (faults w)).

(** [g.get_repo(repository)]: the repository object is its name. *)
Definition get_repo (repository : str) : M str :=
  remote_call (GetRepo repository)
    (fun t => match find_repo repository t with
              | Some _ => inr (repository, t)
              | None => inl not_found
              end).

(** [repo.get_issue(issue_number)]: the issue object holds what the tracker
    had when it was fetched. *)
Definition get_issue (repo : str) (issue_number : Z) : M Issue.t :=
  remote_call (GetIssue repo issue_number)
    (fun t => match find_repo repo t with
              | Some r => match find_issue issue_number (Repo.issues r) with
                          | Some i => inr (i, t)
                          | None => inl not_found
                          end
              | None => inl not_found
              end).

(** Iterating [repo.get_issues(state="open", sort="created", direction="desc")]. *)
Definition get_issues (repo : str) : M (list Issue.t) :=
  remote_call (ListIssues repo)
    (fun t => match find_repo repo t with
              | Some r => inr (open_desc r, t)
              | None => inl not_found
              end).

(** [[label.name for label in repo.get_labels()]]. *)
Definition get_labels (repo : str) : M (list str) :=
  remote_call (ListLabels repo)
    (fun t => match find_repo repo t with
              | Some r => inr (Repo.catalog r, t)
              | None => inl not_found
              end).

Definition write_issue (repo : str) (n : Z) (f : Issue.t -> Issue.t)
    (t : tracker) : exn + (Issue.t * tracker) :=
  match find_repo repo t with
  | Some r =>
      match find_issue n (Repo.issues r) with
      | Some i =>
          inr (f i, update_repo repo
                      (fun r => set_issues (update_issue n f (Repo.issues r)) r) t)
      | None => inl not_found
      end
  | None => inl not_found
  end.

(** [issue.add_to_labels] with the names unpacked; returns the issue as the tracker now has it. *)
Definition add_to_labels (repo : str) (n : Z) (names : list str) : M Issue.t :=
  remote_call (AddLabels repo n names)
    (write_issue repo n (fun i => set_labels (union (Issue.labels i) names) i)).

(** [issue.add_to_assignees] with the logins unpacked. *)
Definition add_to_assignees (repo : str) (n : Z) (logins : list str) : M Issue.t :=
  remote_call (AddAssignees repo n logins)
    (write_issue repo n (fun i => set_assignees (union (Issue.assignees i) logins) i)).

(** [issue.create_comment(text)]. *)
Definition create_comment (repo : str) (n : Z) (text : str) : M Issue.t :=
  remote_call (CreateComment repo n text)
    (write_issue repo n (add_comment text)).

(* ====================================================================== *)
(** ** Tool results *)
(* ====================================================================== *)

(** The [issue_data] dict of [GetNewIssues._run]. *)
Module Item.
Record t := {
  number : Z;
  title : str;
  body : str;
  labels : list str;
  assignees : list str;
  created_at : str;
  url : str;
  state : str
}.
End Item.

(** One constructor per [return] of the four [_run] methods, carrying the
    values the returned f-string interpolates; [render] gives the text. *)
Inductive outcome :=
| CredentialMissing
| NoNewIssues
| IssuesFound (result : list Item.t)
| GithubApiError (e : str)
| ErrorFetchingIssues (e : str)
| InvalidLabels (invalid_labels available : list str)
| LabelsAdded (labels_to_add : list str) (issue_number : Z) (updated_labels : list str)
| LabelsAlreadyExist (issue_number : Z) (existing_labels : list str)
| IssueNotFound (issue_number : Z) (repository : str)
| InvalidLabelNames
| ErrorAddingLabels (e : str)
| AssigneesAdded (assignees_to_add : list str) (issue_number : Z)
    (updated_assignees : list str)
| AssigneesRejected (assignees_to_add : list str)
| AlreadyAssigned (issue_number : Z) (existing_assignees : list str)
| ErrorAssigningIssue (e : str)
| EmptyComment
| CommentAdded (issue_number : Z) (comment_preview : str)
| PermissionDenied
| ErrorAddingComment (e : str).

Definition nl : str := [10%N].
Definition check_mark : str := [9989%N].              (* U+2705 *)
Definition info_mark : str := [8505%N; 65039%N].      (* U+2139 U+FE0F *)
Definition warning_mark : str := [9888%N; 65039%N].   (* U+26A0 U+FE0F *)
Definition cross_mark : str := [10060%N].             (* U+274C *)

Definition len {A} (l : list A) : Z := Z.of_nat (List.length l).

(** One entry of the listing. *)
Definition render_item (item : Item.t) : str :=
  lit "## Issue #" ++ str_of_int (Item.number item) ++ lit ": " ++ Item.title item ++ nl
  ++ lit "**Body:** " ++ firstn 300 (Item.body item)
  ++ (if (len (Item.body item) >? 300)%Z then lit "..." else []) ++ nl
  ++ lit "**Labels:** "
  ++ (if truthy (Item.labels item) then join (lit ", ") (Item.labels item)
      else cross_mark ++ lit " None") ++ nl
  ++ lit "**Assignees:** "
  ++ (if truthy (Item.assignees item) then join (lit ", ") (Item.assignees item)
      else cross_mark ++ lit " None") ++ nl
  ++ lit "**Created:** " ++ Item.created_at item ++ nl
  ++ lit "**URL:** " ++ Item.url item.

Definition render_listing (result : list Item.t) : str :=
  let needs_processing :=
    filter (fun item => negb (truthy (Item.labels item))
                        || negb (truthy (Item.assignees item))) result in
  let output := lit "Found " ++ str_of_int (len result) ++ lit " open issues." ++ nl in
  let output :=
    if truthy needs_processing
    then output ++ warning_mark ++ lit " " ++ str_of_int (len needs_processing)
         ++ lit " issues need processing (missing labels or assignees)." ++ nl ++ nl
    else output in
  output ++ join (nl ++ nl) (map render_item result).

Definition render (lib : Lib) (o : outcome) : str :=
  match o with
  | CredentialMissing => lit "Error: GITHUB_TOKEN environment variable is not set."
  | NoNewIssues => lit "No new issues found."
  | IssuesFound result => render_listing result
  | GithubApiError e => lit "GitHub API Error: " ++ e
  | ErrorFetchingIssues e => lit "Error fetching issues: " ++ e
  | InvalidLabels invalid_labels available =>
      lit "Error: Labels " ++ repr_strs lib invalid_labels
      ++ lit " do not exist in the repository. Available labels: "
      ++ repr_strs lib available ++ lit "..."
  | LabelsAdded labels_to_add issue_number updated_labels =>
      check_mark ++ lit " Successfully added labels " ++ repr_strs lib labels_to_add
      ++ lit " to issue #" ++ str_of_int issue_number ++ lit "." ++ nl
      ++ lit "Current labels: " ++ repr_strs lib updated_labels
  | LabelsAlreadyExist issue_number existing_labels =>
      info_mark ++ lit " All labels already exist on issue #" ++ str_of_int issue_number
      ++ lit "." ++ nl ++ lit "Current labels: " ++ repr_strs lib existing_labels
  | IssueNotFound issue_number repository =>
      lit "Error: Issue #" ++ str_of_int issue_number
      ++ lit " not found in repository " ++ repository ++ lit "."
  | InvalidLabelNames =>
      lit "Error: Invalid label name(s). Please check that labels exist in the repository."
  | ErrorAddingLabels e => lit "Error adding labels: " ++ e
  | AssigneesAdded assignees_to_add issue_number updated_assignees =>
      check_mark ++ lit " Successfully assigned " ++ repr_strs lib assignees_to_add
      ++ lit " to issue #" ++ str_of_int issue_number ++ lit "." ++ nl
      ++ lit "Current assignees: " ++ repr_strs lib updated_assignees
  | AssigneesRejected assignees_to_add =>
      lit "Error: One or more assignees (" ++ repr_strs lib assignees_to_add
      ++ lit ") may not have access to the repository or do not exist."
  | AlreadyAssigned issue_number existing_assignees =>
      info_mark ++ lit " All assignees already assigned to issue #"
      ++ str_of_int issue_number ++ lit "." ++ nl
      ++ lit "Current assignees: " ++ repr_strs lib existing_assignees
  | ErrorAssigningIssue e => lit "Error assigning issue: " ++ e
  | EmptyComment => lit "Error: Comment cannot be empty."
  | CommentAdded issue_number comment_preview =>
      check_mark ++ lit " Successfully added comment to issue #"
      ++ str_of_int issue_number ++ lit "." ++ nl
      ++ lit "Comment preview: " ++ comment_preview
  | PermissionDenied =>
      lit "Error: Permission denied. Check that GITHUB_TOKEN has write access to issues."
  | ErrorAddingComment e => lit "Error adding comment: " ++ e
  end.

(** The failure outcomes: the credential, validation and [except] returns. *)
Definition is_failure (o : outcome) : bool :=
  match o with
  | NoNewIssues | IssuesFound _ | LabelsAdded _ _ _ | LabelsAlreadyExist _ _
  | AssigneesAdded _ _ _ | AlreadyAssigned _ _ | CommentAdded _ _ => false
  | _ => true
  end.

(* ====================================================================== *)
(** ** The four tools *)
(* ====================================================================== *)

Module GetNewIssues.

Definition issue_data (lib : Lib) (issue : Issue.t) : Item.t :=
  {| Item.number := Issue.number issue;
     Item.title := Issue.title issue;
     Item.body := match Issue.body issue with
                  | Some b => if truthy b then b else []
                  | None => []
                  end;
     Item.labels := Issue.labels issue;
     Item.assignees := Issue.assignees issue;
     Item.created_at := isoformat lib (Issue.created_at issue);
     Item.url := Issue.html_url issue;
     Item.state := Issue.state issue |}.

(** The [since] test of one loop iteration: [inr true] is [continue]. *)
Definition before_since (lib : Lib) (since : str) (issue : Issue.t) : exn + bool :=
  if truthy since then
    match fromisoformat lib (replace_Z since) with
    | Some since_dt => dt_lt (Issue.created_at issue) since_dt
    | None => inr false
    end
  else inr false.

(** The [for issue in issues[:20]] loop, [result] being the list built so far. *)
Fixpoint loop (lib : Lib) (since : str) (result : list Item.t)
    (issues : list Issue.t) : exn + list Item.t :=
  match issues with
  | [] => inr result
  | issue :: rest =>
      if Issue.pull_request issue then loop lib since result rest
      else
        match before_since lib since issue with
        | inl e => inl e
        | inr true => loop lib since result rest
        | inr false => loop lib since (result ++ [issue_data lib issue]) rest
        end
  end.

Definition handler (e : exn) : outcome :=
  match e with
  | GithubException _ _ => GithubApiError (exn_str e)
  | OtherException _ => ErrorFetchingIssues (exn_str e)
  end.

Definition _run (lib : Lib) (repository since : str) : world -> outcome * world :=
  try_except
    (github_token <- getenv_GITHUB_TOKEN ;;
     if missing github_token then ret CredentialMissing
     else
       repo <- get_repo repository ;;
       issues <- get_issues repo ;;
       result <- lift (loop lib since [] (firstn 20 issues)) ;;
       if negb (truthy result) then ret NoNewIssues
       else ret (IssuesFound result))
    handler.

End GetNewIssues.

Module AddLabelToIssue.

Definition handler (repository : str) (issue_number : Z) (e : exn) : outcome :=
  match e with
  | GithubException status _ =>
      if (status =? 404)%Z then IssueNotFound issue_number repository
      else if (status =? 422)%Z then InvalidLabelNames
      else GithubApiError (exn_str e)
  | OtherException _ => ErrorAddingLabels (exn_str e)
  end.

Definition _run (lib : Lib) (repository : str) (issue_number : Z)
    (labels : list str) : world -> outcome * world :=
  try_except
    (github_token <- getenv_GITHUB_TOKEN ;;
     if missing github_token then ret CredentialMissing
     else
       repo <- get_repo repository ;;
       issue <- get_issue repo issue_number ;;
       let existing_labels := Issue.labels issue in
       let labels_to_add :=
         filter (fun label => negb (mem label existing_labels)) labels in
       if truthy labels_to_add then
         repo_labels <- get_labels repo ;;
         let invalid_labels :=
           filter (fun label => negb (mem label repo_labels)) labels_to_add in
         if truthy invalid_labels
         then ret (InvalidLabels invalid_labels (firstn 10 repo_labels))
         else
           written <- add_to_labels repo issue_number labels_to_add ;;
           let updated_labels :=
             labels_after_add lib existing_labels (Issue.labels written) in
           ret (LabelsAdded labels_to_add issue_number updated_labels)
       else ret (LabelsAlreadyExist issue_number existing_labels))
    (handler repository issue_number).

End AddLabelToIssue.

Module AssignIssue.

Definition handler (repository : str) (issue_number : Z) (e : exn) : outcome :=
  match e with
  | GithubException status _ =>
      if (status =? 404)%Z then IssueNotFound issue_number repository
      else GithubApiError (exn_str e)
  | OtherException _ => ErrorAssigningIssue (exn_str e)
  end.

Definition _run (lib : Lib) (repository : str) (issue_number : Z)
    (assignees : list str) : world -> outcome * world :=
  try_except
    (github_token <- getenv_GITHUB_TOKEN ;;
     if missing github_token then ret CredentialMissing
     else
       repo <- get_repo repository ;;
       issue <- get_issue repo issue_number ;;
       let existing_assignees := Issue.assignees issue in
       let assignees_to_add :=
         filter (fun assignee => negb (mem assignee existing_assignees)) assignees in
       if truthy assignees_to_add then
         catch
           (written <- add_to_assignees repo issue_number assignees_to_add ;;
            let updated_assignees :=
              assignees_after_add lib existing_assignees (Issue.assignees written) in
            ret (AssigneesAdded assignees_to_add issue_number updated_assignees))
           (fun e =>
              match e with
              | GithubException status _ =>
                  if (status =? 422)%Z then ret (AssigneesRejected assignees_to_add)
                  else raise e
              | OtherException _ => raise e
              end)
       else ret (AlreadyAssigned issue_number existing_assignees))
    (handler repository issue_number).

End AssignIssue.

Module CommentOnIssue.

Definition handler (repository : str) (issue_number : Z) (e : exn) : outcome :=
  match e with
  | GithubException status _ =>
      if (status =? 404)%Z then IssueNotFound issue_number repository
      else if (status =? 403)%Z then PermissionDenied
      else GithubApiError (exn_str e)
  | OtherException _ => ErrorAddingComment (exn_str e)
  end.

(** [comment[:100] + "..." if len(comment) > 100 else comment]. *)
Definition comment_preview (comment : str) : str :=
  if (len comment >? 100)%Z then firstn 100 comment ++ lit "..." else comment.

Definition _run (repository : str) (issue_number : Z) (comment : str)
  : world -> outcome * world :=
  try_except
    (github_token <- getenv_GITHUB_TOKEN ;;
     if missing github_token then ret CredentialMissing
     else if negb (truthy comment) || negb (truthy (strip comment))
     then ret EmptyComment
     else
       repo <- get_repo repository ;;
       issue <- get_issue repo issue_number ;;
       _ <- create_comment repo issue_number comment ;;
       ret (CommentAdded issue_number (comment_preview comment)))
    (handler repository issue_number).

End CommentOnIssue.

(* ====================================================================== *)
(** ** A concrete library and tracker for the examples *)
(* ====================================================================== *)

Module Sample.

Definition quote (s : str) : str := lit "'" ++ s ++ lit "'".

(** A parser that knows two timestamps and rejects everything else. *)
Definition parse (s : str) : option datetime :=
  if str_eqb s (lit "2024-01-02T00:00:00+00:00")
  then Some {| wall := 1704153600000000; utcoffset := Some 0%Z |}
  else if str_eqb s (lit "2024-01-02")
  then Some {| wall := 1704153600000000; utcoffset := None |}
  else None.

Definition lib : Lib :=
  {| fromisoformat := parse;
     isoformat := fun d => str_of_int (wall d);
     repr_strs := fun l => lit "[" ++ join (lit ", ") (map quote l) ++ lit "]";
     labels_after_add := fun held _ => held;
     assignees_after_add := fun _ now => now |}.

Definition utc (micros : Z) : datetime := {| wall := micros; utcoffset := Some 0%Z |}.

Definition issue (n : Z) (ls us : list str) (day : Z) (st : string) (pr : bool)
  : Issue.t :=
  {| Issue.number := n; Issue.title := lit "title"; Issue.body := None;
     Issue.labels := ls; Issue.assignees := us;
     Issue.created_at := utc (1704067200000000 + day * 86400000000);
     Issue.html_url := lit "https://github.com/octocat/Hello-World/issues/"
                       ++ str_of_int n;
     Issue.state := lit st; Issue.pull_request := pr; Issue.thread := [] |}.

Definition hello : str := lit "octocat/Hello-World".

(** Issue 1 is bare, 2 is a pull request, 3 is labelled and assigned,
    4 is closed; created on consecutive days from 2024-01-01. *)
Definition repo : Repo.t :=
  {| Repo.full_name := hello;
     Repo.catalog := [lit "bug"; lit "documentation"];
     Repo.issues :=
       [ issue 1 [] [] 0 "open" false;
         issue 2 [] [] 1 "open" true;
         issue 3 [lit "bug"] [lit "alice"] 2 "open" false;
         issue 4 [] [] 3 "closed" false ] |}.

Definition online : world :=
  {| token := Some (lit "ghp_token"); remote := [repo]; faults := []; calls := [] |}.

Definition no_token : world :=
  {| token := None; remote := [repo]; faults := []; calls := [] |}.

(** The first remote call meets HTTP 502. *)
Definition flaky : world :=
  {| token := Some (lit "ghp_token"); remote := [repo];
     faults := [Some (GithubException 502 (lit "502 Bad Gateway"))]; calls := [] |}.

End Sample.

(* ====================================================================== *)
(** ** Vocabulary of the properties *)
(* ====================================================================== *)

(** A body that is empty or holds whitespace only. *)
Definition whitespace_only (s : str) : bool := forallb isspace s.

(** The issues a listing result returns; a failure returns none. *)
Definition listing_of (o : outcome) : list Item.t :=
  match o with IssuesFound result => result | _ => [] end.

(** The labels, and the assignees, the tracker holds for an issue. *)
Definition labels_in (t : tracker) (repository : str) (n : Z) : option (list str) :=
  match find_repo repository t with
  | Some r => option_map Issue.labels (find_issue n (Repo.issues r))
  | None => None
  end.

Definition assignees_in (t : tracker) (repository : str) (n : Z)
  : option (list str) :=
  match find_repo repository t with
  | Some r => option_map Issue.assignees (find_issue n (Repo.issues r))
  | None => None
  end.

(** The label catalog the tracker holds for a repository. *)
Definition catalog_in (t : tracker) (repository : str) : option (list str) :=
  option_map Repo.catalog (find_repo repository t).

(** [l - old] of the specification: the comprehension
    [[x for x in l if x not in old]] of the source. *)
Definition minus (l old : list str) : list str :=
  filter (fun x => negb (mem x old)) l.

(** The remote writes among logged calls. *)
Definition writes (l : list event) : list event := filter is_write l.

(** The text starts with one of the failure markers the tools use. *)
Definition marked_failure (s : str) : bool :=
  startswith (lit "Error") s || startswith (lit "GitHub API Error:") s.

(** The failures whose text starts with the exact marker [Error:]. *)
Definition error_colon (o : outcome) : bool :=
  match o with
  | CredentialMissing | InvalidLabels _ _ | IssueNotFound _ _ | InvalidLabelNames
  | AssigneesRejected _ | EmptyComment | PermissionDenied => true
  | _ => false
  end.

(** The issues one pass of the listing loop keeps: not a pull request, and
    not created before [since]. *)
Definition kept (lib : Lib) (since : str) (issue : Issue.t) : bool :=
  negb (Issue.pull_request issue)
  && match GetNewIssues.before_since lib since issue with
     | inr false => true
     | _ => false
     end.

(** Creation order of the tracker's listing: newest first. *)
Definition newer_first (a b : Issue.t) : Prop :=
  (instant (Issue.created_at b) <= instant (Issue.created_at a))%Z.

(** The comment stream the tracker holds for an issue. *)
Definition thread_in (t : tracker) (repository : str) (n : Z) : option (list str) :=
  match find_repo repository t with
  | Some r => option_map Issue.thread (find_issue n (Repo.issues r))
  | None => None
  end.

(** [evs] is an initial part of the call sequence [full]. *)
Definition starts (evs full : list event) : Prop := exists rest, full = evs ++ rest.


(* ====================================================================== *)
(** ** The entry points of [main.py] *)
(* ====================================================================== *)

Module Main.

(** What [print] wrote: one entry per call, on [sys.stdout] or [sys.stderr]. *)
Record console := { stdout : list str; stderr : list str }.

Definition print (line : str) (c : console) : console :=
  {| stdout := stdout c ++ [line]; stderr := stderr c |}.

Definition print_err (line : str) (c : console) : console :=
  {| stdout := stdout c; stderr := stderr c ++ [line] |}.

Definition warning_lines : list str :=
  [ warning_mark ++ lit "  Warning: GITHUB_TOKEN environment variable is not set.";
    lit "Please set it before running the crew:";
    lit "  export GITHUB_TOKEN=your_github_token";
    nl ++ lit "Continuing anyway..." ].

Definition banner_lines : list str :=
  [ nl ++ repeat 61%N 50;
    check_mark ++ lit " Crew execution completed successfully!";
    repeat 61%N 50 ].

(** [run()].  [kickoff] stands for
    [GithubIssueManagement().crew().kickoff(inputs=inputs)], the framework's
    call: what it returns or raises and how it leaves the world. *)
Definition run {R : Type} (kickoff : world -> (exn + R) * world)
    (w : world) (c : console) : (exn + R) * world * console :=
  let c :=
    if missing (token w) then fold_left (fun c line => print line c) warning_lines c
    else c in
  match kickoff w with
  | (inr result, w') =>
      (inr result, w', fold_left (fun c line => print line c) banner_lines c)
  | (inl e, w') =>
      (inl e, w',
       print_err (nl ++ cross_mark ++ lit " Error running crew: " ++ exn_str e) c)
  end.

End Main.

(* ====================================================================== *)
(** ** Strings and lists *)
(* ====================================================================== *)

Lemma str_eqb_eq (a b : str) : str_eqb a b = true <-> a = b.
Proof.
  revert b; induction a as [|x a IH]; intros [|y b]; simpl; split;
    try congruence; try reflexivity.
  - intros H. apply andb_true_iff in H as [Hx Hab].
    apply N.eqb_eq in Hx. apply IH in Hab. congruence.
  - intros H. injection H as -> ->. rewrite N.eqb_refl. simpl. now apply IH.
Qed.

Lemma str_eqb_refl (a : str) : str_eqb a a = true.
Proof. now apply str_eqb_eq. Qed.

Lemma mem_In (x : str) (l : list str) : mem x l = true <-> In x l.
Proof.
  unfold mem. rewrite existsb_exists. split.
  - intros [y [Hy E]]. apply str_eqb_eq in E. now subst.
  - intros H. exists x. split; [assumption | apply str_eqb_refl].
Qed.

Lemma mem_false (x : str) (l : list str) : mem x l = false <-> ~ In x l.
Proof.
  rewrite <- mem_In. destruct (mem x l); split; congruence.
Qed.

Lemma truthy_false {A} (l : list A) : truthy l = false <-> l = [].
Proof. destruct l; simpl; split; congruence. Qed.

(** [l - old], the comprehension [[x for x in l if x not in old]]. *)
Lemma In_missing (x : str) (old l : list str) :
  In x (filter (fun y => negb (mem y old)) l) <-> In x l /\ ~ In x old.
Proof.
  rewrite filter_In, negb_true_iff, mem_false. reflexivity.
Qed.

Lemma union_In (x : str) (new old : list str) :
  In x (union old new) <-> In x old \/ In x new.
Proof.
  revert old; induction new as [|y new IH]; intros old; simpl.
  - tauto.
  - destruct (mem y old) eqn:E; rewrite IH.
    + apply mem_In in E. split; [tauto|]. intros [H|[H|H]]; subst; tauto.
    + rewrite in_app_iff. simpl. tauto.
Qed.

(** Once the missing names are added, nothing of [l] is missing. *)
Lemma nothing_missing_after_union (old l : list str) :
  filter (fun y => negb (mem y (union old (filter (fun z => negb (mem z old)) l)))) l
  = [].
Proof.
  apply truthy_false.
  destruct (filter _ l) as [|y rest] eqn:E; [reflexivity|exfalso].
  assert (H : In y (y :: rest)) by now left.
  rewrite <- E in H. apply In_missing in H as [Hl Hn]. apply Hn.
  apply union_In. destruct (mem y old) eqn:M.
  - left. now apply mem_In.
  - right. apply In_missing. split; [assumption | now apply mem_false].
Qed.

Lemma lstrip_nil_iff (s : str) : lstrip s = [] <-> whitespace_only s = true.
Proof.
  unfold whitespace_only. induction s as [|c s IH]; simpl.
  - tauto.
  - destruct (isspace c); simpl; [exact IH | split; discriminate].
Qed.

(** [comment.strip()] is empty exactly on the whitespace-only bodies. *)
Lemma strip_nil_iff (s : str) : strip s = [] <-> whitespace_only s = true.
Proof.
  unfold strip, rstrip. split.
  - intros H. apply lstrip_nil_iff.
    destruct (lstrip s) as [|c t] eqn:E; [reflexivity|exfalso].
    assert (Hc : isspace c = false).
    { clear H. induction s as [|d s IH]; simpl in E; [discriminate|].
      destruct (isspace d) eqn:D; [now apply IH | congruence]. }
    assert (G : forall u, (exists v, In v u /\ isspace v = false) -> lstrip u <> []).
    { induction u as [|d u IH]; intros [v [Hv Wv]]; simpl.
      - destruct Hv.
      - destruct (isspace d) eqn:D; [|discriminate].
        apply IH. exists v. split; [|assumption].
        destruct Hv as [->|Hv]; [congruence | assumption]. }
    apply (G (rev (c :: t))).
    + exists c. split; [apply in_rev; rewrite rev_involutive; now left | assumption].
    + apply (f_equal (@rev char)) in H. rewrite rev_involutive in H. exact H.
  - intros H. apply lstrip_nil_iff in H. rewrite H. reflexivity.
Qed.

(** The test [not comment or not comment.strip()] of [CommentOnIssue._run]. *)
Lemma blank_test (comment : str) :
  negb (truthy comment) || negb (truthy (strip comment)) = whitespace_only comment.
Proof.
  destruct (whitespace_only comment) eqn:W.
  - apply strip_nil_iff in W. rewrite W. simpl. apply orb_true_r.
  - destruct comment as [|c s]; [discriminate|]. simpl negb at 1. simpl orb.
    destruct (strip (c :: s)) eqn:E; [|reflexivity].
    apply strip_nil_iff in E. congruence.
Qed.

(* ====================================================================== *)
(** ** The tracker *)
(* ====================================================================== *)

Section Updates.

Variable f : Issue.t -> Issue.t.
Hypothesis f_number : forall i, Issue.number (f i) = Issue.number i.

Lemma find_issue_update (n : Z) (l : list Issue.t) :
  find_issue n (update_issue n f l) = option_map f (find_issue n l).
Proof.
  induction l as [|i l IH]; simpl; [reflexivity|].
  destruct (Issue.number i =? n)%Z eqn:E; simpl.
  - now rewrite f_number, E.
  - now rewrite E.
Qed.

Lemma find_repo_update (name : str) (n : Z) (t : tracker) :
  find_repo name
    (update_repo name (fun r => set_issues (update_issue n f (Repo.issues r)) r) t)
  = option_map (fun r => set_issues (update_issue n f (Repo.issues r)) r)
      (find_repo name t).
Proof.
  induction t as [|r t IH]; simpl; [reflexivity|].
  destruct (str_eqb (Repo.full_name r) name) eqn:E; simpl; now rewrite E.
Qed.

End Updates.

(** A write to an issue the tracker holds: the issue becomes [f i], and is
    found again under the same repository and number. *)
Lemma write_issue_found (f : Issue.t -> Issue.t) (repo : str) (n : Z)
    (t : tracker) (r : Repo.t) (i : Issue.t) :
  (forall j, Issue.number (f j) = Issue.number j) ->
  find_repo repo t = Some r ->
  find_issue n (Repo.issues r) = Some i ->
  exists t' r',
    write_issue repo n f t = inr (f i, t')
    /\ find_repo repo t' = Some r'
    /\ find_issue n (Repo.issues r') = Some (f i)
    /\ Repo.catalog r' = Repo.catalog r.
Proof.
  intros Hf Hr Hi. unfold write_issue. rewrite Hr, Hi.
  eexists. exists (set_issues (update_issue n f (Repo.issues r)) r).
  split; [reflexivity|]. rewrite (find_repo_update f), Hr. simpl.
  rewrite (find_issue_update f Hf), Hi. simpl. repeat split.
Qed.

(** A write never reaches an issue the tracker does not hold. *)
Lemma write_issue_inv (f : Issue.t -> Issue.t) (repo : str) (n : Z)
    (t t' : tracker) (j : Issue.t) :
  write_issue repo n f t = inr (j, t') ->
  exists r i, find_repo repo t = Some r /\ find_issue n (Repo.issues r) = Some i
              /\ j = f i.
Proof.
  unfold write_issue.
  destruct (find_repo repo t) as [r|] eqn:Hr; [|discriminate].
  destruct (find_issue n (Repo.issues r)) as [i|] eqn:Hi; [|discriminate].
  intros H. injection H as Hj _. exists r, i. subst j. repeat split; assumption.
Qed.

(* ====================================================================== *)
(** ** Remote calls *)
(* ====================================================================== *)

Lemma quiet_hd (k : nat) (w : world) :
  quiet (S k) w = true -> hd None (faults w) = None.
Proof.
  unfold quiet. destruct (faults w) as [|[e|] l]; simpl; congruence.
Qed.

Lemma quiet_step (k : nat) (ev : event) (t : tracker) (w : world) :
  quiet (S k) w = true -> quiet k (step ev t w) = true.
Proof.
  unfold quiet, step. simpl faults.
  destruct (faults w) as [|[e|] l]; simpl; try congruence.
  now rewrite firstn_nil.
Qed.

Lemma quiet_less (k : nat) (w : world) : quiet (S k) w = true -> quiet k w = true.
Proof.
  unfold quiet. generalize (faults w). induction k as [|k IH]; intros l.
  - reflexivity.
  - destruct l as [|f l]; [reflexivity|].
    change (firstn (S (S k)) (f :: l)) with (f :: firstn (S k) l).
    change (firstn (S k) (f :: l)) with (f :: firstn k l).
    simpl forallb. destruct f; [discriminate|]. simpl. apply IH.
Qed.

(** Every remote call is logged and takes one entry of the schedule; it
    changes the tracker only when it is answered. *)
Lemma remote_call_inv {A} (ev : event) (answer : tracker -> exn + (A * tracker))
    (w w' : world) (x : exn + A) :
  remote_call ev answer w = (x, w') ->
  w' = step ev (remote w') w
  /\ ((exists e, x = inl e /\ remote w' = remote w)
      \/ (exists a, x = inr a /\ answer (remote w) = inr (a, remote w'))).
Proof.
  unfold remote_call.
  destruct (hd None (faults w)) as [e|].
  - intros H. injection H as <- <-. split; [reflexivity|]. left. now exists e.
  - destruct (answer (remote w)) as [e|[a t']] eqn:E.
    + intros H. injection H as <- <-. split; [reflexivity|]. left. now exists e.
    + intros H. injection H as <- <-. split; [reflexivity|]. right. now exists a.
Qed.

Lemma remote_call_quiet {A} (k : nat) (ev : event)
    (answer : tracker -> exn + (A * tracker)) (w : world) (a : A) (t' : tracker) :
  quiet (S k) w = true -> answer (remote w) = inr (a, t') ->
  remote_call ev answer w = (inr a, step ev t' w).
Proof.
  intros Q E. unfold remote_call. now rewrite (quiet_hd k w Q), E.
Qed.

(* ====================================================================== *)
(** ** The credential gate *)
(* ====================================================================== *)

(** Every [_run] opens with the same two lines: read the token, return the
    credential error when it is unset or empty.  Nothing after them runs. *)
Lemma credential_gate (k : M outcome) (h : exn -> outcome) (w : world) :
  missing (token w) = true ->
  try_except
    (github_token <- getenv_GITHUB_TOKEN ;;
     if missing github_token then ret CredentialMissing else k) h w
  = (CredentialMissing, w).
Proof.
  intros H. unfold try_except, bind, getenv_GITHUB_TOKEN. now rewrite H.
Qed.

Lemma credential_pass (k : M outcome) (h : exn -> outcome) (w : world) :
  missing (token w) = false ->
  try_except
    (github_token <- getenv_GITHUB_TOKEN ;;
     if missing github_token then ret CredentialMissing else k) h w
  = try_except k h w.
Proof.
  intros H. unfold try_except, bind, getenv_GITHUB_TOKEN. now rewrite H.
Qed.

(** C3. When GITHUB_TOKEN is absent from the environment, each of the four
    tools (listing, labels, assignees, comment) returns the credential error
    and hands back the world it was given: no remote call is logged and the
    tracker is untouched. *)
Theorem credential_absent_every_tool (lib : Lib) (repository since comment : str)
    (issue_number : Z) (labels assignees : list str) (w : world) :
  token w = None ->
  GetNewIssues._run lib repository since w = (CredentialMissing, w)
  /\ AddLabelToIssue._run lib repository issue_number labels w = (CredentialMissing, w)
  /\ AssignIssue._run lib repository issue_number assignees w = (CredentialMissing, w)
  /\ CommentOnIssue._run repository issue_number comment w = (CredentialMissing, w).
Proof.
  intros H.
  assert (G : missing (token w) = true) by now rewrite H.
  repeat split.
  - unfold GetNewIssues._run. now apply credential_gate.
  - unfold AddLabelToIssue._run. now apply credential_gate.
  - unfold AssignIssue._run. now apply credential_gate.
  - unfold CommentOnIssue._run. now apply credential_gate.
Qed.

Lemma credential_absent_every_tool_witness :
  GetNewIssues._run Sample.lib Sample.hello [] Sample.no_token
    = (CredentialMissing, Sample.no_token)
  /\ AddLabelToIssue._run Sample.lib Sample.hello 1 [lit "bug"] Sample.no_token
    = (CredentialMissing, Sample.no_token)
  /\ AssignIssue._run Sample.lib Sample.hello 1 [lit "alice"] Sample.no_token
    = (CredentialMissing, Sample.no_token)
  /\ CommentOnIssue._run Sample.hello 1 (lit "hello") Sample.no_token
    = (CredentialMissing, Sample.no_token).
Proof.
  apply (credential_absent_every_tool Sample.lib Sample.hello [] (lit "hello") 1
           [lit "bug"] [lit "alice"] Sample.no_token).
  reflexivity.
Defined.

(* ====================================================================== *)
(** ** Comments: [CommentOnIssue._run] *)
(* ====================================================================== *)

(** C10. In [CommentOnIssue._run] the credential check comes first: with
    GITHUB_TOKEN absent and a body that is empty or whitespace only, the
    result is the credential error, whose text is not that of the
    empty-comment error. *)
Theorem credential_checked_before_body (lib : Lib) (repository comment : str)
    (issue_number : Z) (w : world) :
  token w = None ->
  whitespace_only comment = true ->
  CommentOnIssue._run repository issue_number comment w = (CredentialMissing, w)
  /\ render lib (fst (CommentOnIssue._run repository issue_number comment w))
     = lit "Error: GITHUB_TOKEN environment variable is not set."
  /\ str_eqb (render lib (fst (CommentOnIssue._run repository issue_number comment w)))
       (render lib EmptyComment) = false.
Proof.
  intros H _.
  assert (E : CommentOnIssue._run repository issue_number comment w
              = (CredentialMissing, w)).
  { unfold CommentOnIssue._run. apply credential_gate. now rewrite H. }
  rewrite E. repeat split.
Qed.

Lemma credential_checked_before_body_witness :
  CommentOnIssue._run Sample.hello 1 (lit "  ") Sample.no_token
    = (CredentialMissing, Sample.no_token)
  /\ render Sample.lib (fst (CommentOnIssue._run Sample.hello 1 (lit "  ") Sample.no_token))
     = lit "Error: GITHUB_TOKEN environment variable is not set."
  /\ str_eqb
       (render Sample.lib
          (fst (CommentOnIssue._run Sample.hello 1 (lit "  ") Sample.no_token)))
       (render Sample.lib EmptyComment) = false.
Proof.
  apply (credential_checked_before_body Sample.lib Sample.hello (lit "  ") 1
           Sample.no_token); reflexivity.
Defined.

(** C4, as stated, fails: an empty body with GITHUB_TOKEN absent gets the
    credential error, not the empty-comment error. *)
Lemma empty_comment_without_token :
  whitespace_only [] = true
  /\ CommentOnIssue._run Sample.hello 1 [] Sample.no_token
     = (CredentialMissing, Sample.no_token)
  /\ str_eqb (render Sample.lib CredentialMissing) (render Sample.lib EmptyComment)
     = false.
Proof. repeat split. Qed.

(** C4, amended. For a body that is empty or whitespace only,
    [CommentOnIssue._run] makes no remote call and writes nothing (the world
    comes back as it was) and returns an error: the empty-comment error when
    GITHUB_TOKEN is set, the credential error when it is not. *)
Theorem blank_comment_rejected_before_remote (repository comment : str)
    (issue_number : Z) (w : world) :
  whitespace_only comment = true ->
  snd (CommentOnIssue._run repository issue_number comment w) = w
  /\ fst (CommentOnIssue._run repository issue_number comment w)
     = (if missing (token w) then CredentialMissing else EmptyComment)
  /\ is_failure (fst (CommentOnIssue._run repository issue_number comment w)) = true.
Proof.
  intros W. unfold CommentOnIssue._run.
  destruct (missing (token w)) eqn:T.
  - rewrite credential_gate by assumption. repeat split.
  - rewrite credential_pass by assumption.
    rewrite blank_test, W. repeat split.
Qed.

Lemma blank_comment_rejected_before_remote_witness :
  snd (CommentOnIssue._run Sample.hello 1 (lit "  ") Sample.online) = Sample.online
  /\ fst (CommentOnIssue._run Sample.hello 1 (lit "  ") Sample.online)
     = (if missing (token Sample.online) then CredentialMissing else EmptyComment)
  /\ is_failure (fst (CommentOnIssue._run Sample.hello 1 (lit "  ") Sample.online))
     = true.
Proof.
  apply (blank_comment_rejected_before_remote Sample.hello (lit "  ") 1 Sample.online).
  reflexivity.
Defined.

(* ====================================================================== *)
(** ** What each remote call of the tools can do *)
(* ====================================================================== *)

Lemma get_repo_inv (repository : str) (w w1 : world) (x : exn + str) :
  get_repo repository w = (x, w1) ->
  w1 = step (GetRepo repository) (remote w) w
  /\ ((exists e, x = inl e)
      \/ (x = inr repository /\ exists r, find_repo repository (remote w) = Some r)).
Proof.
  intros H. apply remote_call_inv in H as [S [[e [-> U]]|[a [-> A]]]].
  - rewrite U in S. split; [assumption | left; now exists e].
  - destruct (find_repo repository (remote w)) as [r|] eqn:F; [|discriminate].
    injection A as <- U. rewrite <- U in S. split; [assumption|].
    right. split; [reflexivity | now exists r].
Qed.

Lemma get_issue_inv (repo : str) (n : Z) (w w1 : world) (x : exn + Issue.t) :
  get_issue repo n w = (x, w1) ->
  w1 = step (GetIssue repo n) (remote w) w
  /\ ((exists e, x = inl e)
      \/ (exists r i, x = inr i /\ find_repo repo (remote w) = Some r
                      /\ find_issue n (Repo.issues r) = Some i)).
Proof.
  intros H. apply remote_call_inv in H as [S [[e [-> U]]|[a [-> A]]]].
  - rewrite U in S. split; [assumption | left; now exists e].
  - destruct (find_repo repo (remote w)) as [r|] eqn:F; [|discriminate].
    destruct (find_issue n (Repo.issues r)) as [i|] eqn:G; [|discriminate].
    injection A as <- U. rewrite <- U in S. split; [assumption|].
    right. exists r, i. repeat split; try assumption; reflexivity.
Qed.

Lemma get_labels_inv (repo : str) (w w1 : world) (x : exn + list str) :
  get_labels repo w = (x, w1) ->
  w1 = step (ListLabels repo) (remote w) w
  /\ ((exists e, x = inl e)
      \/ (exists r, x = inr (Repo.catalog r) /\ find_repo repo (remote w) = Some r)).
Proof.
  intros H. apply remote_call_inv in H as [S [[e [-> U]]|[a [-> A]]]].
  - rewrite U in S. split; [assumption | left; now exists e].
  - destruct (find_repo repo (remote w)) as [r|] eqn:F; [|discriminate].
    injection A as <- U. rewrite <- U in S. split; [assumption|].
    right. exists r. split; reflexivity.
Qed.

Lemma get_issues_inv (repo : str) (w w1 : world) (x : exn + list Issue.t) :
  get_issues repo w = (x, w1) ->
  w1 = step (ListIssues repo) (remote w) w
  /\ ((exists e, x = inl e)
      \/ (exists r, x = inr (open_desc r) /\ find_repo repo (remote w) = Some r)).
Proof.
  intros H. apply remote_call_inv in H as [S [[e [-> U]]|[a [-> A]]]].
  - rewrite U in S. split; [assumption | left; now exists e].
  - destruct (find_repo repo (remote w)) as [r|] eqn:F; [|discriminate].
    injection A as <- U. rewrite <- U in S. split; [assumption|].
    right. exists r. split; reflexivity.
Qed.

(** The reads of a quiet world, on a repository and an issue the tracker holds. *)
Lemma get_repo_quiet (k : nat) (repository : str) (w : world) (r : Repo.t) :
  quiet (S k) w = true -> find_repo repository (remote w) = Some r ->
  get_repo repository w = (inr repository, step (GetRepo repository) (remote w) w).
Proof.
  intros Q F. apply (remote_call_quiet k); [assumption | now rewrite F].
Qed.

Lemma get_issue_quiet (k : nat) (repo : str) (n : Z) (w : world) (r : Repo.t)
    (i : Issue.t) :
  quiet (S k) w = true -> find_repo repo (remote w) = Some r ->
  find_issue n (Repo.issues r) = Some i ->
  get_issue repo n w = (inr i, step (GetIssue repo n) (remote w) w).
Proof.
  intros Q F G. apply (remote_call_quiet k); [assumption | now rewrite F, G].
Qed.

Lemma get_labels_quiet (k : nat) (repo : str) (w : world) (r : Repo.t) :
  quiet (S k) w = true -> find_repo repo (remote w) = Some r ->
  get_labels repo w = (inr (Repo.catalog r), step (ListLabels repo) (remote w) w).
Proof.
  intros Q F. apply (remote_call_quiet k); [assumption | now rewrite F].
Qed.

Lemma set_labels_number (ls : list str) (i : Issue.t) :
  Issue.number (set_labels ls i) = Issue.number i.
Proof. reflexivity. Qed.

Lemma set_assignees_number (us : list str) (i : Issue.t) :
  Issue.number (set_assignees us i) = Issue.number i.
Proof. reflexivity. Qed.

Lemma writes_app (l : list event) (ev : event) :
  writes (l ++ [ev]) = writes l ++ (if is_write ev then [ev] else []).
Proof. unfold writes. rewrite filter_app. reflexivity. Qed.

(* ====================================================================== *)
(** ** Labels: [AddLabelToIssue._run] *)
(* ====================================================================== *)

Lemma label_handler_failure (repository : str) (n : Z) (e : exn) :
  is_failure (AddLabelToIssue.handler repository n e) = true.
Proof.
  destruct e as [status m|m]; simpl; [|reflexivity].
  destruct (status =? 404)%Z; [reflexivity|].
  destruct (status =? 422)%Z; reflexivity.
Qed.

(** Every way [AddLabelToIssue._run] can end.  Either the tracker is as it
    was, and the result is a failure or the already-present note, and a write
    was attempted only with names that passed the catalog check; or the one
    write went through, adding exactly the missing names. *)
Lemma add_label_effect (lib : Lib) (repository : str) (n : Z) (labels : list str)
    (w w' : world) (o : outcome) :
  AddLabelToIssue._run lib repository n labels w = (o, w') ->
  (remote w' = remote w
   /\ (is_failure o = true
       \/ exists r i, find_repo repository (remote w) = Some r
            /\ find_issue n (Repo.issues r) = Some i
            /\ filter (fun l => negb (mem l (Issue.labels i))) labels = []
            /\ o = LabelsAlreadyExist n (Issue.labels i))
   /\ (writes (calls w') = writes (calls w)
       \/ exists r i, find_repo repository (remote w) = Some r
            /\ find_issue n (Repo.issues r) = Some i
            /\ filter (fun l => negb (mem l (Repo.catalog r)))
                 (filter (fun l => negb (mem l (Issue.labels i))) labels) = []))
  \/ (exists r i written,
        find_repo repository (remote w) = Some r
        /\ find_issue n (Repo.issues r) = Some i
        /\ filter (fun l => negb (mem l (Issue.labels i))) labels <> []
        /\ filter (fun l => negb (mem l (Repo.catalog r)))
             (filter (fun l => negb (mem l (Issue.labels i))) labels) = []
        /\ write_issue repository n
             (fun j => set_labels
                (union (Issue.labels j)
                   (filter (fun l => negb (mem l (Issue.labels i))) labels)) j)
             (remote w) = inr (written, remote w')
        /\ o = LabelsAdded (filter (fun l => negb (mem l (Issue.labels i))) labels) n
                 (labels_after_add lib (Issue.labels i) (Issue.labels written))).
Proof.
  intros R. unfold AddLabelToIssue._run in R.
  destruct (missing (token w)) eqn:T.
  { rewrite credential_gate in R by assumption. injection R as <- <-.
    left. repeat split; auto. }
  rewrite credential_pass in R by assumption. unfold try_except, bind in R.
  destruct (get_repo repository w) as [[e1|repo] w1] eqn:R1;
    apply get_repo_inv in R1 as [S1 C1].
  { injection R as <- <-. subst w1. left. simpl. rewrite writes_app. simpl.
    rewrite app_nil_r. split; [reflexivity|]. split; [left|left; reflexivity].
    apply label_handler_failure. }
  destruct C1 as [[e X]|[X [r F]]]; [discriminate|]. injection X as ->.
  destruct (get_issue repository n w1) as [[e2|i] w2] eqn:R2;
    apply get_issue_inv in R2 as [S2 C2].
  { injection R as <- <-. subst w2 w1. left. simpl. rewrite !writes_app. simpl.
    rewrite !app_nil_r. split; [reflexivity|]. split; [left|left; reflexivity].
    apply label_handler_failure. }
  destruct C2 as [[e X]|[r2 [i2 [X [F2 G2]]]]]; [discriminate|]. injection X as <-.
  assert (remote w1 = remote w) as E1 by (subst w1; reflexivity).
  rewrite E1, F in F2. injection F2 as <-.
  destruct (filter (fun l => negb (mem l (Issue.labels i))) labels)
    as [|l0 to_add] eqn:TA.
  { simpl in R. unfold ret in R. injection R as <- <-. subst w2 w1. left. simpl.
    rewrite !writes_app. simpl. rewrite !app_nil_r.
    split; [reflexivity|]. split; [right|left; reflexivity].
    exists r, i. repeat split; assumption. }
  change (truthy (l0 :: to_add)) with true in R. cbv iota beta in R.
  destruct (get_labels repository w2) as [[e3|repo_labels] w3] eqn:R3;
    apply get_labels_inv in R3 as [S3 C3].
  { injection R as <- <-. subst w3 w2 w1. left. simpl. rewrite !writes_app. simpl.
    rewrite !app_nil_r. split; [reflexivity|]. split; [left|left; reflexivity].
    apply label_handler_failure. }
  destruct C3 as [[e X]|[r3 [X F3]]]; [discriminate|]. injection X as ->.
  assert (remote w2 = remote w) as E2 by (subst w2 w1; reflexivity).
  rewrite E2, F in F3. injection F3 as <-.
  destruct (filter (fun l => negb (mem l (Repo.catalog r))) (l0 :: to_add))
    as [|b bad] eqn:INV.
  2:{ simpl in R. unfold ret in R. injection R as <- <-. subst w3 w2 w1. left. simpl.
      rewrite !writes_app. simpl. rewrite !app_nil_r.
      split; [reflexivity|]. split; left; reflexivity. }
  unfold truthy in R. cbv iota beta in R.
  destruct (add_to_labels repository n (l0 :: to_add) w3) as [[e4|written] w4] eqn:R4;
    apply remote_call_inv in R4 as [S4 [[e [X U]]|[a [X A]]]]; try discriminate.
  { injection R as <- <-. left.
    assert (remote w3 = remote w) as E3 by (subst w3 w2 w1; reflexivity).
    split; [congruence|]. split; [left; apply label_handler_failure|].
    right. exists r, i. repeat split; rewrite ?TA; try assumption; reflexivity. }
  injection X as <-. unfold ret in R. injection R as <- <-.
  assert (remote w3 = remote w) as E3 by (subst w3 w2 w1; reflexivity).
  rewrite E3 in A.
  right. exists r, i, written.
  repeat split; rewrite ?TA; try assumption; try reflexivity; discriminate.
Qed.

(** The run of [AddLabelToIssue._run] when the token is set, the tracker
    holds the issue and the remote calls the run makes are not failed: two
    reads, then by cases on the missing names and on the catalog check.  A
    run with nothing to add makes 2 remote calls, a rejected one 3, an
    accepted one 4. *)
Lemma add_label_quiet (lib : Lib) (repository : str) (n : Z) (labels : list str)
    (w : world) (r : Repo.t) (i : Issue.t) :
  let w2 := step (GetIssue repository n) (remote w)
              (step (GetRepo repository) (remote w) w) in
  let w3 := step (ListLabels repository) (remote w) w2 in
  let to_add := minus labels (Issue.labels i) in
  let invalid := minus to_add (Repo.catalog r) in
  let grow := fun j => set_labels (union (Issue.labels j) to_add) j in
  missing (token w) = false ->
  quiet (if truthy to_add then if truthy invalid then 3 else 4 else 2) w = true ->
  find_repo repository (remote w) = Some r ->
  find_issue n (Repo.issues r) = Some i ->
  AddLabelToIssue._run lib repository n labels w =
  if truthy to_add then
    if truthy invalid then (InvalidLabels invalid (firstn 10 (Repo.catalog r)), w3)
    else (LabelsAdded to_add n
            (labels_after_add lib (Issue.labels i) (Issue.labels (grow i))),
          step (AddLabels repository n to_add)
            (update_repo repository
               (fun r => set_issues (update_issue n grow (Repo.issues r)) r)
               (remote w)) w3)
  else (LabelsAlreadyExist n (Issue.labels i), w2).
Proof.
  cbv zeta. intros T Q F G.
  unfold AddLabelToIssue._run. rewrite credential_pass by assumption.
  unfold try_except, bind.
  fold (minus labels (Issue.labels i)).
  destruct (truthy (minus labels (Issue.labels i))) eqn:TA.
  - destruct (truthy (minus (minus labels (Issue.labels i)) (Repo.catalog r))) eqn:INV.
    + rewrite (get_repo_quiet 2 repository w r Q F).
      rewrite (get_issue_quiet 1 repository n _ r i (quiet_step _ _ _ _ Q) F G).
      fold (minus labels (Issue.labels i)). rewrite TA. cbv beta iota.
      rewrite (get_labels_quiet 0 repository _ r
                 (quiet_step _ _ _ _ (quiet_step _ _ _ _ Q)) F).
      fold (minus (minus labels (Issue.labels i)) (Repo.catalog r)).
      now rewrite INV.
    + rewrite (get_repo_quiet 3 repository w r Q F).
      rewrite (get_issue_quiet 2 repository n _ r i (quiet_step _ _ _ _ Q) F G).
      fold (minus labels (Issue.labels i)). rewrite TA. cbv beta iota.
      rewrite (get_labels_quiet 1 repository _ r
                 (quiet_step _ _ _ _ (quiet_step _ _ _ _ Q)) F).
      fold (minus (minus labels (Issue.labels i)) (Repo.catalog r)).
      rewrite INV. cbv beta iota. unfold add_to_labels.
      erewrite (remote_call_quiet 0);
        [reflexivity | now repeat apply quiet_step |].
      unfold write_issue. simpl remote. now rewrite F, G.
  - rewrite (get_repo_quiet 1 repository w r Q F).
    rewrite (get_issue_quiet 0 repository n _ r i (quiet_step _ _ _ _ Q) F G).
    fold (minus labels (Issue.labels i)). now rewrite TA.
Qed.

Lemma minus_In (x : str) (l old : list str) :
  In x (minus l old) <-> In x l /\ ~ In x old.
Proof. apply In_missing. Qed.

Lemma minus_nil (l old : list str) : minus l old = [] <-> incl l old.
Proof.
  split.
  - intros H x Hx. destruct (mem x old) eqn:M; [now apply mem_In|exfalso].
    assert (G : In x (minus l old)) by (apply minus_In; split; [|apply mem_false]; assumption).
    rewrite H in G. destruct G.
  - intros H. destruct (minus l old) as [|y rest] eqn:E; [reflexivity|exfalso].
    assert (G : In y (minus l old)) by (rewrite E; now left).
    apply minus_In in G as [Hl Hn]. apply Hn, H, Hl.
Qed.

Lemma labels_in_found (t : tracker) (repository : str) (n : Z) (E : list str) :
  labels_in t repository n = Some E ->
  exists r i, find_repo repository t = Some r
              /\ find_issue n (Repo.issues r) = Some i /\ Issue.labels i = E.
Proof.
  unfold labels_in. destruct (find_repo repository t) as [r|] eqn:F; [|discriminate].
  destruct (find_issue n (Repo.issues r)) as [i|] eqn:G; [|discriminate].
  simpl. intros H. injection H as H. exists r, i. repeat split; assumption.
Qed.

(** The labels of an issue after the tracker took a label write for it. *)
Lemma labels_in_after_write (t t' : tracker) (repository : str) (n : Z)
    (r : Repo.t) (i written : Issue.t) (names : list str) :
  find_repo repository t = Some r ->
  find_issue n (Repo.issues r) = Some i ->
  write_issue repository n
    (fun j => set_labels (union (Issue.labels j) names) j) t = inr (written, t') ->
  labels_in t' repository n = Some (union (Issue.labels i) names).
Proof.
  intros F G W.
  destruct (write_issue_found
              (fun j => set_labels (union (Issue.labels j) names) j)
              repository n t r i (fun j => eq_refl) F G)
    as [t1 [r1 [W1 [F1 [G1 _]]]]].
  rewrite W in W1. injection W1 as _ <-.
  unfold labels_in. now rewrite F1, G1.
Qed.

(** C1, as stated, fails: with GITHUB_TOKEN absent, or when the first remote
    call meets an API failure, the requested label [bug] is in the catalog,
    yet issue 1 keeps its empty label set. *)
Lemma valid_label_not_added_on_failure :
  labels_in (remote Sample.no_token) Sample.hello 1 = Some []
  /\ catalog_in (remote Sample.no_token) Sample.hello
     = Some [lit "bug"; lit "documentation"]
  /\ labels_in
       (remote (snd (AddLabelToIssue._run Sample.lib Sample.hello 1 [lit "bug"]
                       Sample.no_token))) Sample.hello 1 = Some []
  /\ fst (AddLabelToIssue._run Sample.lib Sample.hello 1 [lit "bug"] Sample.no_token)
     = CredentialMissing
  /\ labels_in
       (remote (snd (AddLabelToIssue._run Sample.lib Sample.hello 1 [lit "bug"]
                       Sample.flaky))) Sample.hello 1 = Some []
  /\ fst (AddLabelToIssue._run Sample.lib Sample.hello 1 [lit "bug"] Sample.flaky)
     = GithubApiError (lit "502 Bad Gateway")
  /\ mem (lit "bug") [] = false.
Proof. repeat split. Qed.

(** C1, amended. [AddLabelToIssue._run] leaves the issue's label set a
    superset of the set E it had: labels are only added, never removed, on
    every run.  When GITHUB_TOKEN is set, none of the run's remote calls (four
    at most) fails, and every requested label not already on the issue is in
    the repository's catalog, the run succeeds and the resulting label set is
    the union of E and the requested labels. *)
Theorem labels_only_added_union_when_valid (lib : Lib) (repository : str) (n : Z)
    (labels E : list str) (w : world) :
  labels_in (remote w) repository n = Some E ->
  exists E',
    labels_in (remote (snd (AddLabelToIssue._run lib repository n labels w)))
      repository n = Some E'
    /\ incl E E'
    /\ (missing (token w) = false -> quiet 4 w = true ->
        (forall C, catalog_in (remote w) repository = Some C ->
                   incl (minus labels E) C) ->
        is_failure (fst (AddLabelToIssue._run lib repository n labels w)) = false
        /\ forall x, In x E' <-> In x E \/ In x labels).
Proof.
  intros H. destruct (labels_in_found _ _ _ _ H) as [r [i [F [G HE]]]]. subst E.
  destruct (AddLabelToIssue._run lib repository n labels w) as [o w'] eqn:R.
  simpl fst; simpl snd.
  (* what the issue holds afterwards, on every run *)
  assert (A : exists E', labels_in (remote w') repository n = Some E'
                /\ incl (Issue.labels i) E'
                /\ (remote w' = remote w -> E' = Issue.labels i)).
  { destruct (add_label_effect _ _ _ _ _ _ _ R)
      as [[U _] | [r' [i' [written [F' [G' [_ [_ [W _]]]]]]]]].
    - exists (Issue.labels i). rewrite U.
      repeat split; [assumption | apply incl_refl].
    - rewrite F in F'. injection F' as <-. rewrite G in G'. injection G' as <-.
      pose proof (labels_in_after_write _ _ _ _ _ _ _ _ F G W) as L.
      eexists. split; [exact L|]. split.
      + intros x Hx. apply union_In. now left.
      + intros U. rewrite U, H in L. now injection L as <-. }
  destruct A as [E' [L [I K]]]. exists E'. split; [assumption|]. split; [assumption|].
  intros T Q V.
  assert (Inv : minus (minus labels (Issue.labels i)) (Repo.catalog r) = []).
  { apply minus_nil, V. unfold catalog_in. now rewrite F. }
  rewrite (add_label_quiet lib repository n labels w r i T) in R; try assumption.
  2:{ cbv zeta. rewrite Inv. simpl (truthy []).
      destruct (truthy (minus labels (Issue.labels i)));
        [assumption | apply quiet_less, quiet_less; assumption]. }
  cbv zeta in R. rewrite Inv in R. simpl (truthy []) in R.
  destruct (truthy (minus labels (Issue.labels i))) eqn:TA.
  - injection R as <- <-. split; [reflexivity|].
    simpl remote in L.
    assert (L2 : labels_in
               (update_repo repository
                  (fun r0 => set_issues
                     (update_issue n
                        (fun j => set_labels
                           (union (Issue.labels j) (minus labels (Issue.labels i))) j)
                        (Repo.issues r0)) r0) (remote w)) repository n
             = Some (union (Issue.labels i) (minus labels (Issue.labels i)))).
    { apply (labels_in_after_write _ _ _ _ r i
               (set_labels (union (Issue.labels i) (minus labels (Issue.labels i))) i)
               _ F G).
      unfold write_issue. rewrite F, G. reflexivity. }
    rewrite L2 in L. injection L as <-.
    intros x. rewrite union_In, minus_In.
    destruct (mem x (Issue.labels i)) eqn:M;
      [apply mem_In in M|apply mem_false in M]; tauto.
  - injection R as <- <-. split; [reflexivity|].
    rewrite (K eq_refl).
    apply truthy_false, minus_nil in TA.
    intros x. split; [tauto|]. intros [Hx|Hx]; [assumption | now apply TA].
Qed.

Lemma labels_only_added_union_when_valid_witness :
  exists E',
    labels_in
      (remote (snd (AddLabelToIssue._run Sample.lib Sample.hello 1
                      [lit "bug"; lit "documentation"] Sample.online)))
      Sample.hello 1 = Some E'
    /\ incl [] E'
    /\ is_failure (fst (AddLabelToIssue._run Sample.lib Sample.hello 1
                          [lit "bug"; lit "documentation"] Sample.online)) = false
    /\ forall x, In x E' <-> In x [] \/ In x [lit "bug"; lit "documentation"].
Proof.
  destruct (labels_only_added_union_when_valid Sample.lib Sample.hello 1
              [lit "bug"; lit "documentation"] [] Sample.online eq_refl)
    as [E' [L [I K]]].
  exists E'. split; [exact L|]. split; [exact I|].
  apply K; try reflexivity.
  intros C HC. injection HC as <-. intros x Hx. exact Hx.
Defined.

(** C2, as stated, fails: [ghost-label] is requested, is not on issue 1 and
    is not in the catalog, yet with GITHUB_TOKEN absent the result is the
    credential error, and when the first remote call meets an API failure it
    is the API error; neither names the invalid label. *)
Lemma invalid_label_not_named_on_failure :
  minus (minus [lit "ghost-label"] []) [lit "bug"; lit "documentation"]
    = [lit "ghost-label"]
  /\ labels_in (remote Sample.no_token) Sample.hello 1 = Some []
  /\ catalog_in (remote Sample.no_token) Sample.hello
     = Some [lit "bug"; lit "documentation"]
  /\ fst (AddLabelToIssue._run Sample.lib Sample.hello 1 [lit "ghost-label"]
            Sample.no_token) = CredentialMissing
  /\ fst (AddLabelToIssue._run Sample.lib Sample.hello 1 [lit "ghost-label"]
            Sample.flaky) = GithubApiError (lit "502 Bad Gateway").
Proof. repeat split. Qed.

(** C2, amended. When some requested label that the issue lacks is absent
    from the repository's catalog, [AddLabelToIssue._run] adds no label on any
    run: the tracker is unchanged and no remote write is even attempted.  When
    moreover GITHUB_TOKEN is set and the run's three remote reads do not fail,
    the result is the validation error carrying exactly the invalid labels:
    the requested ones that are neither on the issue nor in the catalog. *)
Theorem invalid_labels_rejected_atomically (lib : Lib) (repository : str) (n : Z)
    (labels E C : list str) (w : world) :
  labels_in (remote w) repository n = Some E ->
  catalog_in (remote w) repository = Some C ->
  minus (minus labels E) C <> [] ->
  remote (snd (AddLabelToIssue._run lib repository n labels w)) = remote w
  /\ writes (calls (snd (AddLabelToIssue._run lib repository n labels w)))
     = writes (calls w)
  /\ (missing (token w) = false -> quiet 3 w = true ->
      fst (AddLabelToIssue._run lib repository n labels w)
      = InvalidLabels (minus (minus labels E) C) (firstn 10 C))
  /\ (forall x, In x (minus (minus labels E) C)
                <-> In x labels /\ ~ In x E /\ ~ In x C).
Proof.
  intros H HC Bad.
  destruct (labels_in_found _ _ _ _ H) as [r [i [F [G HE]]]]. subst E.
  unfold catalog_in in HC. rewrite F in HC. injection HC as <-.
  destruct (AddLabelToIssue._run lib repository n labels w) as [o w'] eqn:R.
  simpl fst; simpl snd.
  assert (Same : remote w' = remote w /\ writes (calls w') = writes (calls w)).
  { destruct (add_label_effect _ _ _ _ _ _ _ R)
      as [[U [_ [Wr | [r' [i' [F' [G' V]]]]]]]
         | [r' [i' [written [F' [G' [_ [V _]]]]]]]].
    - now split.
    - rewrite F in F'. injection F' as <-. rewrite G in G'. injection G' as <-.
      now elim Bad.
    - rewrite F in F'. injection F' as <-. rewrite G in G'. injection G' as <-.
      now elim Bad. }
  destruct Same as [U Wr].
  split; [assumption|]. split; [assumption|]. split.
  - intros T Q.
    destruct (minus (minus labels (Issue.labels i)) (Repo.catalog r))
      as [|b bad] eqn:INV; [now elim Bad|].
    destruct (minus labels (Issue.labels i)) as [|l0 to_add] eqn:TA;
      [discriminate INV|].
    rewrite (add_label_quiet lib repository n labels w r i T) in R; try assumption.
    + cbv zeta in R. rewrite TA, INV in R. simpl truthy in R.
      now injection R as <- _.
    + cbv zeta. rewrite TA, INV. exact Q.
  - intros x. rewrite !minus_In. tauto.
Qed.

Lemma invalid_labels_rejected_atomically_witness :
  remote (snd (AddLabelToIssue._run Sample.lib Sample.hello 1
                 [lit "bug"; lit "ghost-label"] Sample.online))
    = remote Sample.online
  /\ writes (calls (snd (AddLabelToIssue._run Sample.lib Sample.hello 1
                           [lit "bug"; lit "ghost-label"] Sample.online)))
     = writes (calls Sample.online)
  /\ fst (AddLabelToIssue._run Sample.lib Sample.hello 1
            [lit "bug"; lit "ghost-label"] Sample.online)
     = InvalidLabels [lit "ghost-label"] [lit "bug"; lit "documentation"].
Proof.
  destruct (invalid_labels_rejected_atomically Sample.lib Sample.hello 1
              [lit "bug"; lit "ghost-label"] [] [lit "bug"; lit "documentation"]
              Sample.online eq_refl eq_refl) as [U [Wr [O _]]].
  - discriminate.
  - split; [exact U|]. split; [exact Wr|]. apply O; reflexivity.
Defined.

(* ====================================================================== *)
(** ** Assignees: [AssignIssue._run] *)
(* ====================================================================== *)

Lemma assign_handler_failure (repository : str) (n : Z) (e : exn) :
  is_failure (AssignIssue.handler repository n e) = true.
Proof.
  destruct e as [status m|m]; simpl; [|reflexivity].
  destruct (status =? 404)%Z; reflexivity.
Qed.

(** Every way [AssignIssue._run] can end.  The token stays, and either the
    tracker is as it was, the result being a failure or the already-assigned
    note, or the one write went through, adding exactly the missing logins. *)
Lemma assign_effect (lib : Lib) (repository : str) (n : Z) (assignees : list str)
    (w w' : world) (o : outcome) :
  AssignIssue._run lib repository n assignees w = (o, w') ->
  token w' = token w
  /\ ((remote w' = remote w
       /\ (is_failure o = true
           \/ exists r i, find_repo repository (remote w) = Some r
                /\ find_issue n (Repo.issues r) = Some i
                /\ minus assignees (Issue.assignees i) = []
                /\ o = AlreadyAssigned n (Issue.assignees i)))
      \/ (exists r i written,
            missing (token w) = false
            /\ find_repo repository (remote w) = Some r
            /\ find_issue n (Repo.issues r) = Some i
            /\ minus assignees (Issue.assignees i) <> []
            /\ write_issue repository n
                 (fun j => set_assignees
                    (union (Issue.assignees j) (minus assignees (Issue.assignees i))) j)
                 (remote w) = inr (written, remote w')
            /\ o = AssigneesAdded (minus assignees (Issue.assignees i)) n
                     (assignees_after_add lib (Issue.assignees i)
                        (Issue.assignees written)))).
Proof.
  intros R. unfold AssignIssue._run in R.
  destruct (missing (token w)) eqn:T.
  { rewrite credential_gate in R by assumption. injection R as <- <-.
    repeat split; auto. }
  rewrite credential_pass in R by assumption. unfold try_except, bind in R.
  destruct (get_repo repository w) as [[e1|repo] w1] eqn:R1;
    apply get_repo_inv in R1 as [S1 C1].
  { injection R as <- <-. subst w1.
    split; [reflexivity|]. left.
    split; [reflexivity|]. left. apply assign_handler_failure. }
  destruct C1 as [[e X]|[X [r F]]]; [discriminate|]. injection X as ->.
  destruct (get_issue repository n w1) as [[e2|i] w2] eqn:R2;
    apply get_issue_inv in R2 as [S2 C2].
  { injection R as <- <-. subst w2 w1.
    split; [reflexivity|]. left.
    split; [reflexivity|]. left. apply assign_handler_failure. }
  destruct C2 as [[e X]|[r2 [i2 [X [F2 G2]]]]]; [discriminate|]. injection X as <-.
  assert (remote w1 = remote w) as E1 by (subst w1; reflexivity).
  rewrite E1, F in F2. injection F2 as <-.
  fold (minus assignees (Issue.assignees i)) in R.
  destruct (minus assignees (Issue.assignees i)) as [|l0 to_add] eqn:TA.
  { simpl in R. unfold ret in R. injection R as <- <-. subst w2 w1.
    split; [reflexivity|]. left.
    split; [reflexivity|]. right. exists r, i. repeat split; assumption. }
  change (truthy (l0 :: to_add)) with true in R. cbv iota beta in R.
  unfold catch, bind in R.
  destruct (add_to_assignees repository n (l0 :: to_add) w2) as [[e4|written] w4] eqn:R4;
    apply remote_call_inv in R4 as [S4 [[e [X U]]|[a [X A]]]]; try discriminate.
  { assert (remote w2 = remote w) as E2 by (subst w2 w1; reflexivity).
    assert (K1 : token w4 = token w).
    { rewrite S4. subst w2 w1. reflexivity. }
    destruct e4 as [status m|m].
    - destruct (status =? 422)%Z.
      + unfold ret in R. injection R as <- <-.
        split; [assumption|]. left.
        split; [congruence | left; reflexivity].
      + unfold raise in R. injection R as <- <-.
        split; [assumption|]. left.
        split; [congruence | left].
        apply (assign_handler_failure repository n (GithubException status m)).
    - unfold raise in R. injection R as <- <-.
      split; [assumption|]. left.
      split; [congruence | left; reflexivity]. }
  injection X as <-. unfold ret in R. injection R as <- <-.
  assert (remote w2 = remote w) as E2 by (subst w2 w1; reflexivity).
  rewrite E2 in A.
  split; [rewrite S4; subst w2 w1; reflexivity|].
  right. exists r, i, written. rewrite TA.
  repeat split; try assumption; try reflexivity; discriminate.
Qed.

(** The run of [AssignIssue._run] when the token is set, the tracker holds
    the issue and the remote calls the run makes are not failed: 2 calls
    when nothing is to add, 3 otherwise. *)
Lemma assign_quiet (lib : Lib) (repository : str) (n : Z) (assignees : list str)
    (w : world) (r : Repo.t) (i : Issue.t) :
  let w2 := step (GetIssue repository n) (remote w)
              (step (GetRepo repository) (remote w) w) in
  let to_add := minus assignees (Issue.assignees i) in
  let grow := fun j => set_assignees (union (Issue.assignees j) to_add) j in
  missing (token w) = false ->
  quiet (if truthy to_add then 3 else 2) w = true ->
  find_repo repository (remote w) = Some r ->
  find_issue n (Repo.issues r) = Some i ->
  AssignIssue._run lib repository n assignees w =
  if truthy to_add then
    (AssigneesAdded to_add n
       (assignees_after_add lib (Issue.assignees i) (Issue.assignees (grow i))),
     step (AddAssignees repository n to_add)
       (update_repo repository
          (fun r => set_issues (update_issue n grow (Repo.issues r)) r)
          (remote w)) w2)
  else (AlreadyAssigned n (Issue.assignees i), w2).
Proof.
  cbv zeta. intros T Q F G.
  unfold AssignIssue._run. rewrite credential_pass by assumption.
  unfold try_except, bind.
  fold (minus assignees (Issue.assignees i)).
  destruct (truthy (minus assignees (Issue.assignees i))) eqn:TA.
  - rewrite (get_repo_quiet 2 repository w r Q F).
    rewrite (get_issue_quiet 1 repository n _ r i (quiet_step _ _ _ _ Q) F G).
    fold (minus assignees (Issue.assignees i)). rewrite TA.
    cbv beta iota. unfold catch, bind, add_to_assignees.
    erewrite (remote_call_quiet 0); [reflexivity | now repeat apply quiet_step |].
    unfold write_issue. simpl remote. now rewrite F, G.
  - rewrite (get_repo_quiet 1 repository w r Q F).
    rewrite (get_issue_quiet 0 repository n _ r i (quiet_step _ _ _ _ Q) F G).
    fold (minus assignees (Issue.assignees i)). now rewrite TA.
Qed.

Lemma assignees_in_after_write (t t' : tracker) (repository : str) (n : Z)
    (r : Repo.t) (i written : Issue.t) (logins : list str) :
  find_repo repository t = Some r ->
  find_issue n (Repo.issues r) = Some i ->
  write_issue repository n
    (fun j => set_assignees (union (Issue.assignees j) logins) j) t
  = inr (written, t') ->
  assignees_in t' repository n = Some (union (Issue.assignees i) logins).
Proof.
  intros F G W.
  destruct (write_issue_found
              (fun j => set_assignees (union (Issue.assignees j) logins) j)
              repository n t r i (fun j => eq_refl) F G)
    as [t1 [r1 [W1 [F1 [G1 _]]]]].
  rewrite W in W1. injection W1 as _ <-.
  unfold assignees_in. now rewrite F1, G1.
Qed.

(** After a run that did not fail, the issue holds every requested login. *)
Lemma assigned_after_success (lib : Lib) (repository : str) (n : Z)
    (assignees : list str) (w w' : world) (o : outcome) :
  AssignIssue._run lib repository n assignees w = (o, w') ->
  is_failure o = false ->
  missing (token w') = false
  /\ exists us, assignees_in (remote w') repository n = Some us /\ incl assignees us.
Proof.
  intros R NF. split.
  - destruct (assign_effect _ _ _ _ _ _ _ R) as [Tk _]. rewrite Tk.
    destruct (missing (token w)) eqn:T; [|reflexivity].
    unfold AssignIssue._run in R. rewrite credential_gate in R by assumption.
    injection R as <- _. discriminate NF.
  - destruct (assign_effect _ _ _ _ _ _ _ R)
      as [_ [[U [Fl | [r [i [F [G [Nil _]]]]]]]
             | [r [i [written [_ [F [G [_ [W _]]]]]]]]]].
    + congruence.
    + exists (Issue.assignees i). split.
      * rewrite U. unfold assignees_in. now rewrite F, G.
      * now apply minus_nil.
    + exists (union (Issue.assignees i) (minus assignees (Issue.assignees i))).
      split; [exact (assignees_in_after_write _ _ _ _ _ _ _ _ F G W)|].
      intros x Hx. apply union_In.
      destruct (mem x (Issue.assignees i)) eqn:M.
      * left. now apply mem_In.
      * right. apply minus_In. split; [assumption | now apply mem_false].
Qed.

(** A run on an issue that already holds every requested login changes
    nothing, whatever fails; undisturbed, it reports so. *)
Lemma assign_noop (lib : Lib) (repository : str) (n : Z) (assignees us : list str)
    (w : world) :
  assignees_in (remote w) repository n = Some us ->
  incl assignees us ->
  remote (snd (AssignIssue._run lib repository n assignees w)) = remote w
  /\ (missing (token w) = false -> quiet 2 w = true ->
      fst (AssignIssue._run lib repository n assignees w) = AlreadyAssigned n us).
Proof.
  intros H Inc. unfold assignees_in in H.
  destruct (find_repo repository (remote w)) as [r|] eqn:F; [|discriminate].
  destruct (find_issue n (Repo.issues r)) as [i|] eqn:G; [|discriminate].
  simpl in H. injection H as <-.
  apply minus_nil in Inc.
  destruct (AssignIssue._run lib repository n assignees w) as [o w'] eqn:R.
  simpl fst; simpl snd. split.
  - destruct (assign_effect _ _ _ _ _ _ _ R)
      as [_ [[U _] | [r' [i' [written [_ [F' [G' [Ne _]]]]]]]]].
    + assumption.
    + rewrite F in F'. injection F' as <-. rewrite G in G'. injection G' as <-.
      now elim Ne.
  - intros T Q.
    rewrite (assign_quiet lib repository n assignees w r i T) in R; try assumption.
    + cbv zeta in R. rewrite Inc in R. simpl in R. now injection R as <- _.
    + cbv zeta. now rewrite Inc.
Qed.

(** C8, as stated, fails.  With GITHUB_TOKEN absent the second call returns
    the credential error, not a success or no-op.  And when only the first
    call meets an API failure, two calls leave [alice] assigned to issue 1
    where one call leaves nobody. *)
Lemma assign_twice_differs_on_failure :
  fst (AssignIssue._run Sample.lib Sample.hello 1 [lit "alice"]
         (snd (AssignIssue._run Sample.lib Sample.hello 1 [lit "alice"]
                 Sample.no_token))) = CredentialMissing
  /\ is_failure CredentialMissing = true
  /\ assignees_in
       (remote (snd (AssignIssue._run Sample.lib Sample.hello 1 [lit "alice"]
                       Sample.flaky))) Sample.hello 1 = Some []
  /\ assignees_in
       (remote (snd (AssignIssue._run Sample.lib Sample.hello 1 [lit "alice"]
                       (snd (AssignIssue._run Sample.lib Sample.hello 1 [lit "alice"]
                               Sample.flaky))))) Sample.hello 1
     = Some [lit "alice"].
Proof. repeat split. Qed.

(** C8, amended.  When none of the first call's remote calls (three at most)
    is failed, calling [AssignIssue._run] twice in succession with the same
    logins leaves the tracker exactly as calling it once.  When the first
    call does not fail, the second changes nothing whatever happens to it,
    and, its two reads not failed, it returns the no-op result reporting the
    assignee set the first call left, which holds every requested login. *)
Theorem assigning_twice_is_assigning_once (lib : Lib) (repository : str) (n : Z)
    (assignees : list str) (w : world) :
  let once := AssignIssue._run lib repository n assignees w in
  let twice := AssignIssue._run lib repository n assignees (snd once) in
  (quiet 3 w = true -> remote (snd twice) = remote (snd once))
  /\ (is_failure (fst once) = false ->
      remote (snd twice) = remote (snd once)
      /\ (quiet 2 (snd once) = true ->
          exists us,
            assignees_in (remote (snd once)) repository n = Some us
            /\ incl assignees us
            /\ fst twice = AlreadyAssigned n us)).
Proof.
  cbv zeta.
  destruct (AssignIssue._run lib repository n assignees w) as [o1 w1] eqn:R1.
  simpl fst; simpl snd.
  assert (Ok : is_failure o1 = false ->
               remote (snd (AssignIssue._run lib repository n assignees w1)) = remote w1
               /\ (quiet 2 w1 = true ->
                   exists us, assignees_in (remote w1) repository n = Some us
                     /\ incl assignees us
                     /\ fst (AssignIssue._run lib repository n assignees w1)
                        = AlreadyAssigned n us)).
  { intros NF.
    destruct (assigned_after_success _ _ _ _ _ _ _ R1 NF) as [T1 [us [A Inc]]].
    destruct (assign_noop lib repository n assignees us w1 A Inc) as [U O].
    split; [assumption|]. intros Q1. exists us. auto. }
  split; [|assumption].
  intros Q. destruct (is_failure o1) eqn:Fl; [|now apply Ok].
  destruct (AssignIssue._run lib repository n assignees w1) as [o2 w2] eqn:R2.
  simpl snd.
  destruct (assign_effect _ _ _ _ _ _ _ R1) as [Tk [[U1 _] | Wrote]].
  - destruct (assign_effect _ _ _ _ _ _ _ R2)
      as [_ [[U2 _] | [r [i [written [T2 [F [G _]]]]]]]]; [assumption|exfalso].
    rewrite Tk in T2. rewrite U1 in F.
    rewrite (assign_quiet lib repository n assignees w r i T2) in R1; try assumption.
    + cbv zeta in R1.
      destruct (truthy (minus assignees (Issue.assignees i)));
        injection R1 as <- _; discriminate Fl.
    + cbv zeta. destruct (truthy (minus assignees (Issue.assignees i)));
        [assumption | now apply quiet_less].
  - destruct Wrote as [r [i [written [_ [_ [_ [_ [_ O]]]]]]]]. subst o1. discriminate Fl.
Qed.

Lemma assigning_twice_is_assigning_once_witness :
  remote (snd (AssignIssue._run Sample.lib Sample.hello 1 [lit "alice"; lit "bob"]
                 (snd (AssignIssue._run Sample.lib Sample.hello 1
                         [lit "alice"; lit "bob"] Sample.online))))
  = remote (snd (AssignIssue._run Sample.lib Sample.hello 1 [lit "alice"; lit "bob"]
                   Sample.online))
  /\ exists us,
       assignees_in
         (remote (snd (AssignIssue._run Sample.lib Sample.hello 1
                         [lit "alice"; lit "bob"] Sample.online))) Sample.hello 1
       = Some us
       /\ incl [lit "alice"; lit "bob"] us
       /\ fst (AssignIssue._run Sample.lib Sample.hello 1 [lit "alice"; lit "bob"]
                 (snd (AssignIssue._run Sample.lib Sample.hello 1
                         [lit "alice"; lit "bob"] Sample.online)))
          = AlreadyAssigned 1 us.
Proof.
  destruct (assigning_twice_is_assigning_once Sample.lib Sample.hello 1
              [lit "alice"; lit "bob"] Sample.online) as [Q S].
  split; [apply Q; reflexivity|].
  destruct (S eq_refl) as [_ N]. apply N. reflexivity.
Defined.

(* ====================================================================== *)
(** ** The comment preview *)
(* ====================================================================== *)

Lemma comment_handler_failure (repository : str) (n : Z) (e : exn) :
  is_failure (CommentOnIssue.handler repository n e) = true.
Proof.
  destruct e as [status m|m]; simpl; [|reflexivity].
  destruct (status =? 404)%Z; [reflexivity|].
  destruct (status =? 403)%Z; reflexivity.
Qed.

(** [CommentOnIssue._run] fails, or it created the comment on an issue the
    tracker holds and returns the preview of the body it was given. *)
Lemma comment_effect (repository : str) (n : Z) (comment : str)
    (w w' : world) (o : outcome) :
  CommentOnIssue._run repository n comment w = (o, w') ->
  (is_failure o = true /\ remote w' = remote w)
  \/ (o = CommentAdded n (CommentOnIssue.comment_preview comment)
      /\ whitespace_only comment = false
      /\ exists written,
           write_issue repository n (add_comment comment) (remote w)
           = inr (written, remote w')).
Proof.
  intros R. unfold CommentOnIssue._run in R.
  destruct (missing (token w)) eqn:T.
  { rewrite credential_gate in R by assumption. injection R as <- <-. now left. }
  rewrite credential_pass in R by assumption.
  rewrite blank_test in R.
  destruct (whitespace_only comment) eqn:Blank.
  { unfold try_except, ret in R. injection R as <- <-. now left. }
  unfold try_except, bind in R.
  destruct (get_repo repository w) as [[e1|repo] w1] eqn:R1;
    apply get_repo_inv in R1 as [S1 C1].
  { injection R as <- <-. subst w1. left.
    split; [apply comment_handler_failure | reflexivity]. }
  destruct C1 as [[e X]|[X [r F]]]; [discriminate|]. injection X as ->.
  destruct (get_issue repository n w1) as [[e2|i] w2] eqn:R2;
    apply get_issue_inv in R2 as [S2 C2].
  { injection R as <- <-. subst w2 w1. left.
    split; [apply comment_handler_failure | reflexivity]. }
  assert (remote w2 = remote w) as E2 by (subst w2 w1; reflexivity).
  destruct (create_comment repository n comment w2) as [[e3|written] w3] eqn:R3;
    apply remote_call_inv in R3 as [S3 [[e [X U]]|[a [X A]]]]; try discriminate.
  { injection R as <- <-. left.
    split; [apply comment_handler_failure | congruence]. }
  injection X as <-. unfold ret in R. injection R as <- <-.
  right. split; [reflexivity|]. split; [reflexivity|].
  exists written. now rewrite <- E2.
Qed.

Lemma len_gt (A : Type) (l : list A) (k : nat) :
  (len l >? Z.of_nat k)%Z = (k <? List.length l)%nat.
Proof.
  unfold len. destruct (k <? List.length l)%nat eqn:E.
  - apply Nat.ltb_lt in E. apply Z.gtb_lt. lia.
  - apply Nat.ltb_ge in E. rewrite Z.gtb_ltb. apply Z.ltb_ge. lia.
Qed.

(** C5. Every successful [CommentOnIssue._run] returns the success result
    whose preview is the first 100 characters of the body followed by the
    three-dot ellipsis when the body is longer than 100 characters (so 103
    characters in all, for a body of 250 as for any longer one) and the body
    itself otherwise; the returned text ends with that preview. *)
Theorem comment_preview_first_100 (lib : Lib) (repository : str) (n : Z)
    (comment : str) (w : world) :
  is_failure (fst (CommentOnIssue._run repository n comment w)) = false ->
  exists preview,
    fst (CommentOnIssue._run repository n comment w) = CommentAdded n preview
    /\ ((100 < List.length comment)%nat ->
        preview = firstn 100 comment ++ lit "..."
        /\ List.length (firstn 100 comment) = 100%nat
        /\ List.length preview = 103%nat)
    /\ ((List.length comment <= 100)%nat -> preview = comment)
    /\ (List.length comment = 250%nat ->
        List.length (firstn 100 comment) = 100%nat
        /\ preview = firstn 100 comment ++ lit "...")
    /\ render lib (fst (CommentOnIssue._run repository n comment w))
       = check_mark ++ lit " Successfully added comment to issue #"
         ++ str_of_int n ++ lit "." ++ nl ++ lit "Comment preview: " ++ preview.
Proof.
  intros NF.
  destruct (CommentOnIssue._run repository n comment w) as [o w'] eqn:R.
  simpl fst in *.
  destruct (comment_effect _ _ _ _ _ _ R) as [[Fl _] | [O _]]; [congruence|].
  subst o. exists (CommentOnIssue.comment_preview comment).
  unfold CommentOnIssue.comment_preview.
  change 100%Z with (Z.of_nat 100). rewrite len_gt.
  split; [reflexivity|].
  assert (Long : (100 < List.length comment)%nat ->
                 List.length (firstn 100 comment) = 100%nat).
  { intros L. rewrite length_firstn. lia. }
  split; [|split; [|split]].
  - intros L. apply Nat.ltb_lt in L as Lb. rewrite Lb.
    split; [reflexivity|]. split; [now apply Long|].
    rewrite length_app, Long by assumption. reflexivity.
  - intros L. apply Nat.ltb_ge in L. now rewrite L.
  - intros L. assert (Lt : (100 < List.length comment)%nat) by lia.
    apply Nat.ltb_lt in Lt as Lb. rewrite Lb. split; [now apply Long | reflexivity].
  - reflexivity.
Qed.

Lemma comment_preview_first_100_witness :
  exists preview,
    fst (CommentOnIssue._run Sample.hello 1 (repeat 65%N 250) Sample.online)
    = CommentAdded 1 preview
    /\ preview = repeat 65%N 100 ++ lit "..."
    /\ List.length preview = 103%nat.
Proof.
  destruct (comment_preview_first_100 Sample.lib Sample.hello 1 (repeat 65%N 250)
              Sample.online eq_refl) as [preview [O [L _]]].
  exists preview. split; [exact O|].
  destruct L as [P [_ N]].
  - rewrite repeat_length. lia.
  - split; [exact P | exact N].
Defined.

(* ====================================================================== *)
(** ** The listing: [GetNewIssues._run] *)
(* ====================================================================== *)

Lemma insert_desc_In (x i : Issue.t) (l : list Issue.t) :
  In x (insert_desc i l) <-> x = i \/ In x l.
Proof.
  induction l as [|j l IH]; simpl.
  - intuition congruence.
  - destruct (instant (Issue.created_at j) <? instant (Issue.created_at i))%Z;
      simpl; [|rewrite IH]; intuition congruence.
Qed.

Lemma sort_desc_In (x : Issue.t) (l : list Issue.t) :
  In x (sort_desc l) <-> In x l.
Proof.
  unfold sort_desc. induction l as [|i l IH]; simpl; [tauto|].
  rewrite insert_desc_In, IH. intuition congruence.
Qed.

Lemma insert_desc_sorted (i : Issue.t) (l : list Issue.t) :
  Sorted newer_first l -> Sorted newer_first (insert_desc i l).
Proof.
  induction 1 as [|j l S IH H]; simpl.
  - repeat constructor.
  - destruct (instant (Issue.created_at j) <? instant (Issue.created_at i))%Z eqn:E.
    + apply Z.ltb_lt in E. constructor; [now constructor|].
      constructor. unfold newer_first. lia.
    + apply Z.ltb_ge in E. constructor; [assumption|].
      destruct l as [|k l]; simpl.
      * constructor. exact E.
      * destruct (instant (Issue.created_at k) <? instant (Issue.created_at i))%Z;
          constructor; [exact E | now inversion H].
Qed.

(** The tracker's listing holds the open issues of the repository, newest
    first. *)
Lemma open_desc_sorted (r : Repo.t) : Sorted newer_first (open_desc r).
Proof.
  unfold open_desc, sort_desc.
  induction (filter is_open (Repo.issues r)) as [|i l IH]; simpl.
  - constructor.
  - now apply insert_desc_sorted.
Qed.

Lemma open_desc_In (r : Repo.t) (x : Issue.t) :
  In x (open_desc r) <-> In x (Repo.issues r) /\ is_open x = true.
Proof.
  unfold open_desc. rewrite sort_desc_In. apply filter_In.
Qed.

(** The loop returns what it had plus, in order, the issues it keeps; it
    returns at all only if no comparison raised. *)
Lemma loop_kept (lib : Lib) (since : str) (issues : list Issue.t) :
  forall result out,
    GetNewIssues.loop lib since result issues = inr out ->
    out = result ++ map (GetNewIssues.issue_data lib) (filter (kept lib since) issues).
Proof.
  induction issues as [|issue rest IH]; intros result out H; simpl in H.
  - injection H as <-. simpl. now rewrite app_nil_r.
  - unfold kept at 1. simpl filter. fold (kept lib since).
    destruct (Issue.pull_request issue); simpl.
    + now apply IH.
    + destruct (GetNewIssues.before_since lib since issue) as [e|[|]];
        [discriminate | now apply IH |].
      apply IH in H. rewrite H, <- app_assoc. reflexivity.
Qed.

(** An unparsable [since] is no filter at all. *)
Lemma loop_unparsable (lib : Lib) (since : str) (issues : list Issue.t) :
  fromisoformat lib (replace_Z since) = None ->
  forall result,
    GetNewIssues.loop lib since result issues = GetNewIssues.loop lib [] result issues.
Proof.
  intros P. induction issues as [|issue rest IH]; intros result; simpl; [reflexivity|].
  unfold GetNewIssues.before_since. rewrite P.
  destruct (Issue.pull_request issue); [apply IH|].
  destruct (truthy since); simpl; apply IH.
Qed.

Lemma listing_handler_failure (e : exn) :
  is_failure (GetNewIssues.handler e) = true.
Proof. destruct e; reflexivity. Qed.

(** [GetNewIssues._run] fails, or it returns, in the tracker's order, the
    kept ones among the first 20 of the tracker's listing. *)
Lemma listing_effect (lib : Lib) (repository since : str) (w w' : world)
    (o : outcome) :
  GetNewIssues._run lib repository since w = (o, w') ->
  (is_failure o = true /\ listing_of o = [])
  \/ (exists r,
        find_repo repository (remote w) = Some r
        /\ listing_of o
           = map (GetNewIssues.issue_data lib)
               (filter (kept lib since) (firstn 20 (open_desc r)))).
Proof.
  intros R. unfold GetNewIssues._run in R.
  destruct (missing (token w)) eqn:T.
  { rewrite credential_gate in R by assumption. injection R as <- <-. now left. }
  rewrite credential_pass in R by assumption. unfold try_except, bind in R.
  destruct (get_repo repository w) as [[e1|repo] w1] eqn:R1;
    apply get_repo_inv in R1 as [S1 C1].
  { injection R as <- <-. left. split; [apply listing_handler_failure|].
    destruct e1; reflexivity. }
  destruct C1 as [[e X]|[X [r F]]]; [discriminate|]. injection X as ->.
  destruct (get_issues repository w1) as [[e2|issues] w2] eqn:R2;
    apply get_issues_inv in R2 as [S2 C2].
  { injection R as <- <-. left. split; [apply listing_handler_failure|].
    destruct e2; reflexivity. }
  destruct C2 as [[e X]|[r2 [X F2]]]; [discriminate|]. injection X as ->.
  assert (remote w1 = remote w) as E1 by (subst w1; reflexivity).
  rewrite E1, F in F2. injection F2 as <-.
  unfold lift in R.
  destruct (GetNewIssues.loop lib since [] (firstn 20 (open_desc r)))
    as [e3|result] eqn:L.
  { injection R as <- <-. left. split; [apply listing_handler_failure|].
    destruct e3; reflexivity. }
  apply loop_kept in L. simpl in L.
  right. exists r. split; [assumption|].
  destruct result as [|item result]; simpl in R; unfold ret in R;
    injection R as <- <-; simpl; now rewrite <- L.
Qed.

Lemma first_of_all (A : Type) (k : nat) (l : list A) (x : A) :
  In x (firstn k l) -> In x l.
Proof.
  intros H. rewrite <- (firstn_skipn k l). apply in_or_app. now left.
Qed.

Lemma kept_inv (lib : Lib) (since : str) (issue : Issue.t) :
  kept lib since issue = true ->
  Issue.pull_request issue = false
  /\ GetNewIssues.before_since lib since issue = inr false.
Proof.
  unfold kept. intros H. apply andb_true_iff in H as [P B].
  apply negb_true_iff in P. split; [assumption|].
  destruct (GetNewIssues.before_since lib since issue) as [e|[|]];
    congruence.
Qed.

Lemma dt_lt_false_instant (a b : datetime) :
  dt_lt a b = inr false -> (instant b <= instant a)%Z.
Proof.
  unfold dt_lt, instant.
  destruct (utcoffset a) as [oa|], (utcoffset b) as [ob|]; try discriminate;
    intros H; injection H as H; apply Z.ltb_ge in H; lia.
Qed.

(** C6. Whatever the tracker holds, [GetNewIssues._run] returns at most 20
    issues; each comes from an entry among the first 20 of the tracker's
    listing of open entities, which is sorted by creation time, newest
    first, and that entry is not a pull request.  A run that does not fail
    returns exactly the kept entries of those first 20, in the tracker's
    order. *)
Theorem listing_first_20_without_pull_requests (lib : Lib)
    (repository since : str) (w : world) :
  let o := fst (GetNewIssues._run lib repository since w) in
  (List.length (listing_of o) <= 20)%nat
  /\ (forall item, In item (listing_of o) ->
        exists r issue,
          find_repo repository (remote w) = Some r
          /\ In issue (firstn 20 (open_desc r))
          /\ Issue.pull_request issue = false
          /\ is_open issue = true
          /\ item = GetNewIssues.issue_data lib issue)
  /\ (forall r, find_repo repository (remote w) = Some r ->
        Sorted newer_first (open_desc r)
        /\ (List.length (firstn 20 (open_desc r)) <= 20)%nat)
  /\ (is_failure o = false ->
      exists r, find_repo repository (remote w) = Some r
        /\ listing_of o
           = map (GetNewIssues.issue_data lib)
               (filter (kept lib since) (firstn 20 (open_desc r)))).
Proof.
  cbv zeta.
  destruct (GetNewIssues._run lib repository since w) as [o w'] eqn:R.
  simpl fst.
  destruct (listing_effect _ _ _ _ _ _ R) as [[Fl Nil] | [r [F L]]].
  - rewrite Nil. split; [simpl; lia|]. split; [intros item []|].
    split; [|congruence].
    intros r _. split; [apply open_desc_sorted | apply firstn_le_length].
  - rewrite L. split; [|split; [|split]].
    + rewrite length_map.
      pose proof (filter_length_le (kept lib since) (firstn 20 (open_desc r))).
      pose proof (firstn_le_length 20 (open_desc r)). lia.
    + intros item Hi. apply in_map_iff in Hi as [issue [<- Hk]].
      apply filter_In in Hk as [H20 K]. apply kept_inv in K as [P _].
      exists r, issue. repeat split; try assumption.
      apply first_of_all in H20. now apply open_desc_In in H20.
    + intros r' _. split; [apply open_desc_sorted | apply firstn_le_length].
    + intros _. now exists r.
Qed.

(** C7. A [since] value that does not parse raises nothing and filters
    nothing: the run is the run with [since] omitted, result and world alike.
    When [since] is given and parses, no returned issue was created strictly
    before it. *)
Theorem unparsable_since_is_no_filter (lib : Lib) (repository since : str)
    (w : world) :
  (fromisoformat lib (replace_Z since) = None ->
   GetNewIssues._run lib repository since w = GetNewIssues._run lib repository [] w)
  /\ (forall since_dt,
        truthy since = true ->
        fromisoformat lib (replace_Z since) = Some since_dt ->
        forall item,
          In item (listing_of (fst (GetNewIssues._run lib repository since w))) ->
          exists issue,
            item = GetNewIssues.issue_data lib issue
            /\ dt_lt (Issue.created_at issue) since_dt = inr false
            /\ (instant since_dt <= instant (Issue.created_at issue))%Z).
Proof.
  split.
  - intros P.
    unfold GetNewIssues._run, try_except, bind, getenv_GITHUB_TOKEN.
    destruct (missing (token w)); [reflexivity|].
    destruct (get_repo repository w) as [[e|repo] w1]; [reflexivity|].
    destruct (get_issues repo w1) as [[e|issues] w2]; [reflexivity|].
    now rewrite (loop_unparsable lib since (firstn 20 issues) P).
  - intros since_dt Given P item Hi.
    destruct (GetNewIssues._run lib repository since w) as [o w'] eqn:R.
    simpl fst in Hi.
    destruct (listing_effect _ _ _ _ _ _ R) as [[_ Nil] | [r [F L]]].
    + rewrite Nil in Hi. destruct Hi.
    + rewrite L in Hi. apply in_map_iff in Hi as [issue [<- Hk]].
      apply filter_In in Hk as [_ K]. apply kept_inv in K as [_ B].
      unfold GetNewIssues.before_since in B. rewrite Given, P in B.
      exists issue. split; [reflexivity|]. split; [assumption|].
      now apply dt_lt_false_instant.
Qed.

Lemma unparsable_since_is_no_filter_witness :
  GetNewIssues._run Sample.lib Sample.hello (lit "yesterday") Sample.online
  = GetNewIssues._run Sample.lib Sample.hello [] Sample.online
  /\ map Item.number
       (listing_of (fst (GetNewIssues._run Sample.lib Sample.hello
                           (lit "yesterday") Sample.online))) = [3; 1]%Z
  /\ map Item.number
       (listing_of (fst (GetNewIssues._run Sample.lib Sample.hello
                           (lit "2024-01-02T00:00:00Z") Sample.online))) = [3]%Z
  /\ forall item,
       In item (listing_of (fst (GetNewIssues._run Sample.lib Sample.hello
                                   (lit "2024-01-02T00:00:00Z") Sample.online))) ->
       exists issue,
         item = GetNewIssues.issue_data Sample.lib issue
         /\ dt_lt (Issue.created_at issue) (Sample.utc 1704153600000000) = inr false
         /\ (instant (Sample.utc 1704153600000000)
             <= instant (Issue.created_at issue))%Z.
Proof.
  destruct (unparsable_since_is_no_filter Sample.lib Sample.hello (lit "yesterday")
              Sample.online) as [U _].
  destruct (unparsable_since_is_no_filter Sample.lib Sample.hello
              (lit "2024-01-02T00:00:00Z") Sample.online) as [_ P].
  split; [apply U; reflexivity|]. split; [reflexivity|]. split; [reflexivity|].
  apply P; reflexivity.
Defined.

(* ====================================================================== *)
(** ** Telling failure from success by the text *)
(* ====================================================================== *)

(** C9, as stated, fails: a listing whose first remote call meets HTTP 502
    fails with a text that starts [GitHub API Error:], and one whose [since]
    is a naive timestamp fails on the comparison with a text that starts
    [Error fetching issues:]; neither starts with the marker [Error:]. *)
Lemma failure_without_error_colon :
  is_failure (fst (GetNewIssues._run Sample.lib Sample.hello [] Sample.flaky)) = true
  /\ render Sample.lib (fst (GetNewIssues._run Sample.lib Sample.hello [] Sample.flaky))
     = lit "GitHub API Error: 502 Bad Gateway"
  /\ startswith (lit "Error:")
       (render Sample.lib
          (fst (GetNewIssues._run Sample.lib Sample.hello [] Sample.flaky))) = false
  /\ is_failure (fst (GetNewIssues._run Sample.lib Sample.hello (lit "2024-01-02")
                        Sample.online)) = true
  /\ render Sample.lib
       (fst (GetNewIssues._run Sample.lib Sample.hello (lit "2024-01-02")
               Sample.online))
     = lit "Error fetching issues: " ++ naive_aware_msg
  /\ startswith (lit "Error:")
       (render Sample.lib
          (fst (GetNewIssues._run Sample.lib Sample.hello (lit "2024-01-02")
                  Sample.online))) = false.
Proof. repeat split. Qed.

Lemma startswith_head (x : char) (p s : str) :
  startswith (x :: p) s = true -> exists s', s = x :: s'.
Proof.
  destruct s as [|y s]; simpl; [discriminate|].
  intros H. apply andb_true_iff in H as [E _]. apply N.eqb_eq in E. subst y.
  now exists s.
Qed.

(** A listing opens with [Found]. *)
Lemma listing_text_starts_Found (result : list Item.t) :
  exists rest, render_listing result = 70%N :: rest.
Proof.
  apply (startswith_head 70%N (lit "ound ")).
  unfold render_listing.
  destruct (truthy (filter _ result)); reflexivity.
Qed.

(** C9, amended.  The text of every failure outcome of the four tools starts
    with [Error] or with [GitHub API Error:], and the text of no success or
    no-op outcome does, so the start of the text alone tells failure from
    success.  The exact marker [Error:] opens only the credential,
    validation, not-found and permission failures; API failures open with
    [GitHub API Error:] and other exceptions with [Error] followed by what
    was being done. *)
Theorem failure_told_by_prefix (lib : Lib) (o : outcome) :
  marked_failure (render lib o) = is_failure o
  /\ startswith (lit "Error:") (render lib o) = error_colon o
  /\ (is_failure o = true -> error_colon o = false ->
      startswith (lit "GitHub API Error: ") (render lib o) = true
      \/ startswith (lit "Error fetching issues: ") (render lib o) = true
      \/ startswith (lit "Error adding labels: ") (render lib o) = true
      \/ startswith (lit "Error assigning issue: ") (render lib o) = true
      \/ startswith (lit "Error adding comment: ") (render lib o) = true).
Proof.
  split; [|split].
  - unfold marked_failure. destruct o; try reflexivity.
    simpl render. destruct (listing_text_starts_Found result) as [rest ->].
    reflexivity.
  - destruct o; try reflexivity.
    simpl render. destruct (listing_text_starts_Found result) as [rest ->].
    reflexivity.
  - destruct o; simpl; intros Fl Ec; try discriminate;
      first [ left; reflexivity
            | right; left; reflexivity
            | right; right; left; reflexivity
            | right; right; right; left; reflexivity
            | right; right; right; right; reflexivity ].
Qed.

(** On the sample tracker the listing returns issues 3 and 1, newest first:
    the pull request 2 and the closed issue 4 are left out. *)
Example listing_of_sample :
  map Item.number
    (listing_of (fst (GetNewIssues._run Sample.lib Sample.hello [] Sample.online)))
  = [3; 1]%Z
  /\ calls (snd (GetNewIssues._run Sample.lib Sample.hello [] Sample.online))
     = [GetRepo Sample.hello; ListIssues Sample.hello].
Proof. split; reflexivity. Qed.

(** A successful comment is appended to the issue's thread, once. *)
Example comment_of_sample :
  option_map Issue.thread
    (find_issue 1
       (Repo.issues
          (hd Sample.repo
             (remote (snd (CommentOnIssue._run Sample.hello 1 (lit "On it.")
                             Sample.online))))))
  = Some [lit "On it."]
  /\ str_of_int (-12) = lit "-12" /\ str_of_int 0 = lit "0".
Proof. repeat split. Qed.

(* ====================================================================== *)
(** ** More on the listing *)
(* ====================================================================== *)

Lemma remote_call_refused {A} (k : nat) (ev : event)
    (answer : tracker -> exn + (A * tracker)) (w : world) (e : exn) :
  quiet (S k) w = true -> answer (remote w) = inl e ->
  remote_call ev answer w = (inl e, step ev (remote w) w).
Proof.
  intros Q E. unfold remote_call. now rewrite (quiet_hd k w Q), E.
Qed.

Lemma remote_call_failed {A} (ev : event)
    (answer : tracker -> exn + (A * tracker)) (w : world) (e : exn) :
  hd None (faults w) = Some e ->
  remote_call ev answer w = (inl e, step ev (remote w) w).
Proof. intros H. unfold remote_call. now rewrite H. Qed.

Lemma calls_step (ev : event) (t : tracker) (w : world) :
  calls (step ev t w) = calls w ++ [ev].
Proof. reflexivity. Qed.






Lemma startswith_app (p s : str) : startswith p (p ++ s) = true.
Proof.
  induction p as [|x p IH]; simpl; [reflexivity|].
  now rewrite N.eqb_refl, IH.
Qed.

Lemma startswith_app_l (p s t : str) :
  startswith p s = true -> startswith p (s ++ t) = true.
Proof.
  revert s; induction p as [|x p IH]; intros [|y s]; simpl; try congruence.
  intros H. apply andb_true_iff in H as [E H]. now rewrite E, IH.
Qed.

(** A listing that reports issues reports at least one and at most 20, and
    its text opens with their count. *)
Theorem found_issues_are_counted (lib : Lib) (repository since : str) (w : world)
    (result : list Item.t) :
  fst (GetNewIssues._run lib repository since w) = IssuesFound result ->
  (1 <= List.length result <= 20)%nat
  /\ startswith (lit "Found " ++ str_of_int (len result) ++ lit " open issues." ++ nl)
       (render lib (fst (GetNewIssues._run lib repository since w))) = true.
Proof.
  intros H.
  destruct (GetNewIssues._run lib repository since w) as [o w'] eqn:R.
  simpl fst in *. subst o. split.
  - split.
    + unfold GetNewIssues._run in R.
      destruct (missing (token w)) eqn:T.
      { rewrite credential_gate in R by assumption. discriminate R. }
      rewrite credential_pass in R by assumption. unfold try_except, bind in R.
      destruct (get_repo repository w) as [[e1|repo] w1];
        [destruct e1; discriminate R|].
      destruct (get_issues repo w1) as [[e2|issues] w2];
        [destruct e2; discriminate R|].
      unfold lift in R.
      destruct (GetNewIssues.loop lib since [] (firstn 20 issues)) as [e3|found];
        [destruct e3; discriminate R|].
      destruct found as [|item found]; simpl in R; unfold ret in R;
        [discriminate R|].
      injection R as <- _. simpl. lia.
    + destruct (listing_effect _ _ _ _ _ _ R) as [[Fl _] | [r [_ L]]];
        [discriminate Fl|].
      change result with (listing_of (IssuesFound result)).
      rewrite L, length_map.
      pose proof (filter_length_le (kept lib since) (firstn 20 (open_desc r))).
      pose proof (firstn_le_length 20 (open_desc r)). lia.
  - simpl render. unfold render_listing.
    destruct (truthy (filter _ result)).
    + apply startswith_app_l, startswith_app.
    + apply startswith_app.
Qed.

Lemma found_issues_are_counted_witness :
  (1 <= 2 <= 20)%nat
  /\ startswith (lit "Found 2 open issues." ++ nl)
       (render Sample.lib
          (fst (GetNewIssues._run Sample.lib Sample.hello [] Sample.online))) = true.
Proof.
  apply (found_issues_are_counted Sample.lib Sample.hello [] Sample.online
           (map (GetNewIssues.issue_data Sample.lib)
              [Sample.issue 3 [lit "bug"] [lit "alice"] 2 "open" false;
               Sample.issue 1 [] [] 0 "open" false])).
  reflexivity.
Defined.




(* ====================================================================== *)
(** ** Failures before the work starts *)
(* ====================================================================== *)

(** A token that is set but empty is a missing token: each tool returns the
    credential error and makes no remote call. *)
Theorem empty_token_is_no_token (lib : Lib) (repository since comment : str)
    (n : Z) (labels assignees : list str) (w : world) :
  token w = Some [] ->
  GetNewIssues._run lib repository since w = (CredentialMissing, w)
  /\ AddLabelToIssue._run lib repository n labels w = (CredentialMissing, w)
  /\ AssignIssue._run lib repository n assignees w = (CredentialMissing, w)
  /\ CommentOnIssue._run repository n comment w = (CredentialMissing, w).
Proof.
  intros H.
  assert (G : missing (token w) = true) by now rewrite H.
  split; [|split; [|split]].
  - unfold GetNewIssues._run. now apply credential_gate.
  - unfold AddLabelToIssue._run. now apply credential_gate.
  - unfold AssignIssue._run. now apply credential_gate.
  - unfold CommentOnIssue._run. now apply credential_gate.
Qed.

Lemma empty_token_is_no_token_witness :
  let w := {| token := Some []; remote := [Sample.repo]; faults := []; calls := [] |} in
  GetNewIssues._run Sample.lib Sample.hello [] w = (CredentialMissing, w)
  /\ AddLabelToIssue._run Sample.lib Sample.hello 1 [lit "bug"] w = (CredentialMissing, w)
  /\ AssignIssue._run Sample.lib Sample.hello 1 [lit "alice"] w = (CredentialMissing, w)
  /\ CommentOnIssue._run Sample.hello 1 (lit "hello") w = (CredentialMissing, w).
Proof.
  apply (empty_token_is_no_token Sample.lib Sample.hello [] (lit "hello") 1
           [lit "bug"] [lit "alice"]).
  reflexivity.
Defined.

(** When the first remote call fails, each tool stops after that one call,
    the tracker untouched, and the exception decides the result.  A 404 is
    reported as a missing issue by the three writing tools, though it is the
    repository lookup that failed, and as a plain API error by the listing;
    422 is the invalid-label error for labels only, 403 the permission error
    for comments only; any other exception gives the tool's own
    error-while-doing text. *)
Theorem first_call_failure (lib : Lib) (repository since comment : str) (n : Z)
    (labels assignees : list str) (w : world) (e : exn) :
  missing (token w) = false ->
  hd None (faults w) = Some e ->
  whitespace_only comment = false ->
  let w1 := step (GetRepo repository) (remote w) w in
  GetNewIssues._run lib repository since w
  = (match e with
     | GithubException _ m => GithubApiError m
     | OtherException m => ErrorFetchingIssues m
     end, w1)
  /\ AddLabelToIssue._run lib repository n labels w
     = (match e with
        | GithubException status m =>
            if (status =? 404)%Z then IssueNotFound n repository
            else if (status =? 422)%Z then InvalidLabelNames
            else GithubApiError m
        | OtherException m => ErrorAddingLabels m
        end, w1)
  /\ AssignIssue._run lib repository n assignees w
     = (match e with
        | GithubException status m =>
            if (status =? 404)%Z then IssueNotFound n repository
            else GithubApiError m
        | OtherException m => ErrorAssigningIssue m
        end, w1)
  /\ CommentOnIssue._run repository n comment w
     = (match e with
        | GithubException status m =>
            if (status =? 404)%Z then IssueNotFound n repository
            else if (status =? 403)%Z then PermissionDenied
            else GithubApiError m
        | OtherException m => ErrorAddingComment m
        end, w1).
Proof.
  intros T H Blank. cbv zeta.
  assert (G : get_repo repository w
              = (inl e, step (GetRepo repository) (remote w) w))
    by now apply remote_call_failed.
  split; [|split; [|split]].
  - unfold GetNewIssues._run. rewrite credential_pass by assumption.
    unfold try_except, bind. rewrite G. now destruct e.
  - unfold AddLabelToIssue._run. rewrite credential_pass by assumption.
    unfold try_except, bind. rewrite G. now destruct e.
  - unfold AssignIssue._run. rewrite credential_pass by assumption.
    unfold try_except, bind. rewrite G. now destruct e.
  - unfold CommentOnIssue._run. rewrite credential_pass by assumption.
    rewrite blank_test, Blank. unfold try_except, bind. rewrite G. now destruct e.
Qed.

Lemma first_call_failure_witness :
  GetNewIssues._run Sample.lib Sample.hello [] Sample.flaky
  = (GithubApiError (lit "502 Bad Gateway"),
     step (GetRepo Sample.hello) (remote Sample.flaky) Sample.flaky)
  /\ AddLabelToIssue._run Sample.lib Sample.hello 1 [lit "bug"] Sample.flaky
     = (GithubApiError (lit "502 Bad Gateway"),
        step (GetRepo Sample.hello) (remote Sample.flaky) Sample.flaky)
  /\ AssignIssue._run Sample.lib Sample.hello 1 [lit "alice"] Sample.flaky
     = (GithubApiError (lit "502 Bad Gateway"),
        step (GetRepo Sample.hello) (remote Sample.flaky) Sample.flaky)
  /\ CommentOnIssue._run Sample.hello 1 (lit "hello") Sample.flaky
     = (GithubApiError (lit "502 Bad Gateway"),
        step (GetRepo Sample.hello) (remote Sample.flaky) Sample.flaky).
Proof.
  apply (first_call_failure Sample.lib Sample.hello [] (lit "hello") 1
           [lit "bug"] [lit "alice"] Sample.flaky
           (GithubException 502 (lit "502 Bad Gateway"))); reflexivity.
Defined.

(** A repository the tracker does not hold: one remote call, nothing
    changed.  The listing reports the API error as it came; the three
    writing tools report that the issue was not found. *)
Theorem unknown_repository (lib : Lib) (repository since comment : str) (n : Z)
    (labels assignees : list str) (w : world) :
  missing (token w) = false -> quiet 1 w = true ->
  find_repo repository (remote w) = None ->
  whitespace_only comment = false ->
  let w1 := step (GetRepo repository) (remote w) w in
  GetNewIssues._run lib repository since w = (GithubApiError (exn_str not_found), w1)
  /\ AddLabelToIssue._run lib repository n labels w = (IssueNotFound n repository, w1)
  /\ AssignIssue._run lib repository n assignees w = (IssueNotFound n repository, w1)
  /\ CommentOnIssue._run repository n comment w = (IssueNotFound n repository, w1).
Proof.
  intros T Q F Blank. cbv zeta.
  assert (G : get_repo repository w
              = (inl not_found, step (GetRepo repository) (remote w) w)).
  { apply (remote_call_refused 0); [assumption | now rewrite F]. }
  split; [|split; [|split]].
  - unfold GetNewIssues._run. rewrite credential_pass by assumption.
    unfold try_except, bind. now rewrite G.
  - unfold AddLabelToIssue._run. rewrite credential_pass by assumption.
    unfold try_except, bind. now rewrite G.
  - unfold AssignIssue._run. rewrite credential_pass by assumption.
    unfold try_except, bind. now rewrite G.
  - unfold CommentOnIssue._run. rewrite credential_pass by assumption.
    rewrite blank_test, Blank. unfold try_except, bind. now rewrite G.
Qed.

Lemma unknown_repository_witness :
  GetNewIssues._run Sample.lib (lit "octocat/Nowhere") [] Sample.online
  = (GithubApiError (lit "404 Not Found"),
     step (GetRepo (lit "octocat/Nowhere")) (remote Sample.online) Sample.online)
  /\ AddLabelToIssue._run Sample.lib (lit "octocat/Nowhere") 1 [lit "bug"] Sample.online
     = (IssueNotFound 1 (lit "octocat/Nowhere"),
        step (GetRepo (lit "octocat/Nowhere")) (remote Sample.online) Sample.online)
  /\ AssignIssue._run Sample.lib (lit "octocat/Nowhere") 1 [lit "alice"] Sample.online
     = (IssueNotFound 1 (lit "octocat/Nowhere"),
        step (GetRepo (lit "octocat/Nowhere")) (remote Sample.online) Sample.online)
  /\ CommentOnIssue._run (lit "octocat/Nowhere") 1 (lit "hello") Sample.online
     = (IssueNotFound 1 (lit "octocat/Nowhere"),
        step (GetRepo (lit "octocat/Nowhere")) (remote Sample.online) Sample.online).
Proof.
  apply (unknown_repository Sample.lib (lit "octocat/Nowhere") [] (lit "hello") 1
           [lit "bug"] [lit "alice"] Sample.online); reflexivity.
Defined.

(** An issue number the repository does not hold: two remote calls, nothing
    changed, and each writing tool reports that the issue was not found. *)
Theorem unknown_issue (lib : Lib) (repository comment : str) (n : Z)
    (labels assignees : list str) (w : world) (r : Repo.t) :
  missing (token w) = false -> quiet 2 w = true ->
  find_repo repository (remote w) = Some r ->
  find_issue n (Repo.issues r) = None ->
  whitespace_only comment = false ->
  let w2 := step (GetIssue repository n) (remote w)
              (step (GetRepo repository) (remote w) w) in
  AddLabelToIssue._run lib repository n labels w = (IssueNotFound n repository, w2)
  /\ AssignIssue._run lib repository n assignees w = (IssueNotFound n repository, w2)
  /\ CommentOnIssue._run repository n comment w = (IssueNotFound n repository, w2).
Proof.
  intros T Q F G Blank. cbv zeta.
  assert (G2 : get_issue repository n (step (GetRepo repository) (remote w) w)
               = (inl not_found,
                  step (GetIssue repository n)
                    (remote (step (GetRepo repository) (remote w) w))
                    (step (GetRepo repository) (remote w) w))).
  { apply (remote_call_refused 0); [now apply quiet_step|].
    simpl remote. now rewrite F, G. }
  split; [|split].
  - unfold AddLabelToIssue._run. rewrite credential_pass by assumption.
    unfold try_except, bind.
    now rewrite (get_repo_quiet 1 repository w r Q F), G2.
  - unfold AssignIssue._run. rewrite credential_pass by assumption.
    unfold try_except, bind.
    now rewrite (get_repo_quiet 1 repository w r Q F), G2.
  - unfold CommentOnIssue._run. rewrite credential_pass by assumption.
    rewrite blank_test, Blank. unfold try_except, bind.
    now rewrite (get_repo_quiet 1 repository w r Q F), G2.
Qed.

Lemma unknown_issue_witness :
  AddLabelToIssue._run Sample.lib Sample.hello 99 [lit "bug"] Sample.online
  = (IssueNotFound 99 Sample.hello,
     step (GetIssue Sample.hello 99) (remote Sample.online)
       (step (GetRepo Sample.hello) (remote Sample.online) Sample.online))
  /\ AssignIssue._run Sample.lib Sample.hello 99 [lit "alice"] Sample.online
     = (IssueNotFound 99 Sample.hello,
        step (GetIssue Sample.hello 99) (remote Sample.online)
          (step (GetRepo Sample.hello) (remote Sample.online) Sample.online))
  /\ CommentOnIssue._run Sample.hello 99 (lit "hello") Sample.online
     = (IssueNotFound 99 Sample.hello,
        step (GetIssue Sample.hello 99) (remote Sample.online)
          (step (GetRepo Sample.hello) (remote Sample.online) Sample.online)).
Proof.
  apply (unknown_issue Sample.lib Sample.hello (lit "hello") 99
           [lit "bug"] [lit "alice"] Sample.online Sample.repo); reflexivity.
Defined.

(* ====================================================================== *)
(** ** More on labels *)
(* ====================================================================== *)

(** When the issue already carries every requested label, an empty request
    included, the run reads the repository and the issue and stops there:
    it reports the labels the issue has, reads no catalog (so a label on the
    issue need not be in it), writes nothing. *)
Theorem labels_already_present (lib : Lib) (repository : str) (n : Z)
    (labels E : list str) (w : world) :
  missing (token w) = false -> quiet 2 w = true ->
  labels_in (remote w) repository n = Some E ->
  incl labels E ->
  AddLabelToIssue._run lib repository n labels w
  = (LabelsAlreadyExist n E,
     step (GetIssue repository n) (remote w)
       (step (GetRepo repository) (remote w) w)).
Proof.
  intros T Q H Inc.
  destruct (labels_in_found _ _ _ _ H) as [r [i [F [G HE]]]]. subst E.
  apply minus_nil in Inc.
  rewrite (add_label_quiet lib repository n labels w r i T); try assumption.
  - cbv zeta. now rewrite Inc.
  - cbv zeta. now rewrite Inc.
Qed.

Lemma labels_already_present_witness :
  AddLabelToIssue._run Sample.lib Sample.hello 3 [] Sample.online
  = (LabelsAlreadyExist 3 [lit "bug"],
     step (GetIssue Sample.hello 3) (remote Sample.online)
       (step (GetRepo Sample.hello) (remote Sample.online) Sample.online)).
Proof.
  apply (labels_already_present Sample.lib Sample.hello 3 [] [lit "bug"]
           Sample.online); try reflexivity.
  intros x [].
Defined.

Ltac starts_here := unfold starts; eexists; simpl; reflexivity.

Ltac log_early :=
  split; [reflexivity|]; eexists;
  split; [simpl calls; rewrite <- ?app_assoc; reflexivity|];
  split; [intros ? ?; starts_here|];
  split; [intros ?; first [congruence | starts_here] | simpl; lia].

Ltac log_late L :=
  split; [reflexivity|]; eexists;
  split; [simpl calls; rewrite <- ?app_assoc; reflexivity|];
  split; [intros ? HE; rewrite L in HE; injection HE as <-; starts_here|];
  split; [intros ?; congruence | simpl; lia].

(** The remote calls of a label run, on every run: an initial part of
    repository, issue, catalog, write, in that order; the write, if it is
    reached, is the last call and asks for exactly the requested labels the
    issue lacks.  The token is not touched. *)
Theorem label_calls_in_order (lib : Lib) (repository : str) (n : Z)
    (labels : list str) (w : world) :
  token (snd (AddLabelToIssue._run lib repository n labels w)) = token w
  /\ exists evs,
       calls (snd (AddLabelToIssue._run lib repository n labels w)) = calls w ++ evs
       /\ (forall E, labels_in (remote w) repository n = Some E ->
             starts evs [GetRepo repository; GetIssue repository n;
                         ListLabels repository;
                         AddLabels repository n (minus labels E)])
       /\ (labels_in (remote w) repository n = None ->
             starts evs [GetRepo repository; GetIssue repository n])
       /\ (List.length (writes evs) <= 1)%nat.
Proof.
  destruct (AddLabelToIssue._run lib repository n labels w) as [o w'] eqn:R.
  simpl snd. unfold AddLabelToIssue._run in R.
  destruct (missing (token w)) eqn:T.
  { rewrite credential_gate in R by assumption. injection R as _ <-.
    split; [reflexivity|]. exists []. rewrite app_nil_r.
    split; [reflexivity|]. split; [intros ? ?; starts_here|].
    split; [intros ?; starts_here | simpl; lia]. }
  rewrite credential_pass in R by assumption. unfold try_except, bind in R.
  destruct (get_repo repository w) as [[e1|repo] w1] eqn:R1;
    apply get_repo_inv in R1 as [S1 C1].
  { injection R as _ <-. subst w1. log_early. }
  destruct C1 as [[e X]|[X [r F]]]; [discriminate|]. injection X as ->.
  destruct (get_issue repository n w1) as [[e2|i] w2] eqn:R2;
    apply get_issue_inv in R2 as [S2 C2].
  { injection R as _ <-. subst w2 w1. log_early. }
  destruct C2 as [[e X]|[r2 [i2 [X [F2 G2]]]]]; [discriminate|]. injection X as <-.
  assert (remote w1 = remote w) as E1 by (subst w1; reflexivity).
  rewrite E1, F in F2. injection F2 as <-.
  assert (L : labels_in (remote w) repository n = Some (Issue.labels i))
    by (unfold labels_in; now rewrite F, G2).
  fold (minus labels (Issue.labels i)) in R.
  destruct (truthy (minus labels (Issue.labels i))) eqn:TA.
  2:{ unfold ret in R. injection R as _ <-. subst w2 w1. log_early. }
  destruct (get_labels repository w2) as [[e3|repo_labels] w3] eqn:R3;
    apply get_labels_inv in R3 as [S3 C3].
  { injection R as _ <-. subst w3 w2 w1. log_early. }
  destruct C3 as [[e X]|[r3 [X F3]]]; [discriminate|]. injection X as ->.
  destruct (truthy (filter (fun label => negb (mem label (Repo.catalog r3)))
                      (minus labels (Issue.labels i)))).
  { unfold ret in R. injection R as _ <-. subst w3 w2 w1. log_early. }
  destruct (add_to_labels repository n (minus labels (Issue.labels i)) w3)
    as [[e4|written] w4] eqn:R4;
    apply remote_call_inv in R4 as [S4 _].
  - injection R as _ <-. rewrite S4. subst w3 w2 w1. log_late L.
  - unfold ret in R. injection R as _ <-. rewrite S4. subst w3 w2 w1. log_late L.
Qed.

(** A label run keeps the token, and with the token missing it returns the
    credential error. *)
Lemma label_keeps_token (lib : Lib) (repository : str) (n : Z)
    (labels : list str) (w : world) :
  token (snd (AddLabelToIssue._run lib repository n labels w)) = token w
  /\ (missing (token w) = true ->
      fst (AddLabelToIssue._run lib repository n labels w) = CredentialMissing).
Proof.
  split.
  - destruct (AddLabelToIssue._run lib repository n labels w) as [o w'] eqn:R.
    simpl snd. unfold AddLabelToIssue._run in R.
    destruct (missing (token w)) eqn:T.
    { rewrite credential_gate in R by assumption. now injection R as _ <-. }
    rewrite credential_pass in R by assumption. unfold try_except, bind in R.
    destruct (get_repo repository w) as [[e1|repo] w1] eqn:R1;
      apply get_repo_inv in R1 as [S1 _].
    { injection R as _ <-. now subst w1. }
    destruct (get_issue repo n w1) as [[e2|i] w2] eqn:R2;
      apply get_issue_inv in R2 as [S2 _].
    { injection R as _ <-. now subst w2 w1. }
    destruct (truthy (filter (fun label => negb (mem label (Issue.labels i))) labels)).
    2:{ unfold ret in R. injection R as _ <-. now subst w2 w1. }
    destruct (get_labels repo w2) as [[e3|repo_labels] w3] eqn:R3;
      apply get_labels_inv in R3 as [S3 _].
    { injection R as _ <-. now subst w3 w2 w1. }
    destruct (truthy (filter (fun label => negb (mem label repo_labels))
                        (filter (fun label => negb (mem label (Issue.labels i)))
                           labels))).
    { unfold ret in R. injection R as _ <-. now subst w3 w2 w1. }
    destruct (add_to_labels repo n
                (filter (fun label => negb (mem label (Issue.labels i))) labels) w3)
      as [[e4|written] w4] eqn:R4;
      apply remote_call_inv in R4 as [S4 _].
    + injection R as _ <-. rewrite S4. now subst w3 w2 w1.
    + unfold ret in R. injection R as _ <-. rewrite S4. now subst w3 w2 w1.
  - intros T. unfold AddLabelToIssue._run. now rewrite credential_gate.
Qed.

(** The run on an issue that lacks none of the requested labels. *)
Lemma labels_already_present_run (lib : Lib) (repository : str) (n : Z)
    (labels : list str) (w : world) (r : Repo.t) (i : Issue.t) :
  missing (token w) = false -> quiet 2 w = true ->
  find_repo repository (remote w) = Some r ->
  find_issue n (Repo.issues r) = Some i ->
  minus labels (Issue.labels i) = [] ->
  fst (AddLabelToIssue._run lib repository n labels w)
  = LabelsAlreadyExist n (Issue.labels i).
Proof.
  intros T Q F G Nil.
  rewrite (add_label_quiet lib repository n labels w r i T); try assumption.
  - cbv zeta. now rewrite Nil.
  - cbv zeta. now rewrite Nil.
Qed.

(** After a label run that did not fail, the issue holds every requested
    label. *)
Lemma labelled_after_success (lib : Lib) (repository : str) (n : Z)
    (labels : list str) (w w' : world) (o : outcome) :
  AddLabelToIssue._run lib repository n labels w = (o, w') ->
  is_failure o = false ->
  exists us, labels_in (remote w') repository n = Some us /\ incl labels us.
Proof.
  intros R NF.
  destruct (add_label_effect _ _ _ _ _ _ _ R)
    as [[U [[Fl | [r [i [F [G [Nil _]]]]]] _]]
       | [r [i [written [F [G [_ [_ [W _]]]]]]]]].
  - congruence.
  - exists (Issue.labels i). split.
    + rewrite U. unfold labels_in. now rewrite F, G.
    + now apply minus_nil.
  - exists (union (Issue.labels i) (minus labels (Issue.labels i))).
    split; [exact (labels_in_after_write _ _ _ _ _ _ _ _ F G W)|].
    intros x Hx. apply union_In.
    destruct (mem x (Issue.labels i)) eqn:M.
    + left. now apply mem_In.
    + right. apply minus_In. split; [assumption | now apply mem_false].
Qed.

(** Adding labels twice is adding them once.  When a first label run did
    not fail, a second run with the same labels changes nothing on the
    tracker whatever happens to it, and, its two reads not failed, it
    returns the already-present result with the label set the first left,
    which holds every requested label. *)
Theorem labelling_twice_is_labelling_once (lib : Lib) (repository : str) (n : Z)
    (labels : list str) (w : world) :
  let once := AddLabelToIssue._run lib repository n labels w in
  let twice := AddLabelToIssue._run lib repository n labels (snd once) in
  is_failure (fst once) = false ->
  remote (snd twice) = remote (snd once)
  /\ (quiet 2 (snd once) = true ->
      exists us,
        labels_in (remote (snd once)) repository n = Some us
        /\ incl labels us
        /\ fst twice = LabelsAlreadyExist n us).
Proof.
  cbv zeta.
  destruct (AddLabelToIssue._run lib repository n labels w) as [o1 w1] eqn:R1.
  simpl fst; simpl snd. intros NF.
  destruct (labelled_after_success _ _ _ _ _ _ _ R1 NF) as [us [A Inc]].
  assert (T1 : missing (token w1) = false).
  { destruct (label_keeps_token lib repository n labels w) as [Tk NoGate].
    rewrite R1 in Tk, NoGate. simpl in Tk, NoGate. rewrite Tk.
    destruct (missing (token w)) eqn:T; [|reflexivity].
    rewrite NoGate in NF by reflexivity. discriminate NF. }
  destruct (labels_in_found _ _ _ _ A) as [r [i [F [G HE]]]]. subst us.
  pose proof Inc as Nil. apply minus_nil in Nil.
  split.
  - destruct (AddLabelToIssue._run lib repository n labels w1) as [o2 w2] eqn:R2.
    simpl snd.
    destruct (add_label_effect _ _ _ _ _ _ _ R2)
      as [[U _] | [r' [i' [written [F' [G' [Ne _]]]]]]]; [assumption|].
    rewrite F in F'. injection F' as <-. rewrite G in G'. injection G' as <-.
    now elim Ne.
  - intros Q. exists (Issue.labels i). split; [assumption|]. split; [assumption|].
    now rewrite (labels_already_present_run lib repository n labels w1 r i T1 Q F G Nil).
Qed.

Lemma labelling_twice_is_labelling_once_witness :
  remote (snd (AddLabelToIssue._run Sample.lib Sample.hello 1 [lit "bug"]
                 (snd (AddLabelToIssue._run Sample.lib Sample.hello 1 [lit "bug"]
                         Sample.online))))
  = remote (snd (AddLabelToIssue._run Sample.lib Sample.hello 1 [lit "bug"]
                   Sample.online))
  /\ exists us,
       labels_in
         (remote (snd (AddLabelToIssue._run Sample.lib Sample.hello 1 [lit "bug"]
                         Sample.online))) Sample.hello 1 = Some us
       /\ incl [lit "bug"] us
       /\ fst (AddLabelToIssue._run Sample.lib Sample.hello 1 [lit "bug"]
                 (snd (AddLabelToIssue._run Sample.lib Sample.hello 1 [lit "bug"]
                         Sample.online)))
          = LabelsAlreadyExist 1 us.
Proof.
  destruct (labelling_twice_is_labelling_once Sample.lib Sample.hello 1 [lit "bug"]
              Sample.online eq_refl) as [U N].
  split; [exact U|]. apply N. reflexivity.
Defined.

(* ====================================================================== *)
(** ** What the writes leave alone *)
(* ====================================================================== *)




(* ====================================================================== *)
(** ** More on assignees *)
(* ====================================================================== *)

Lemma assignees_in_found (t : tracker) (repository : str) (n : Z) (E : list str) :
  assignees_in t repository n = Some E ->
  exists r i, find_repo repository t = Some r
              /\ find_issue n (Repo.issues r) = Some i /\ Issue.assignees i = E.
Proof.
  unfold assignees_in.
  destruct (find_repo repository t) as [r|] eqn:F; [|discriminate].
  destruct (find_issue n (Repo.issues r)) as [i|] eqn:G; [|discriminate].
  simpl. intros H. injection H as H. exists r, i. repeat split; assumption.
Qed.

(** Assignees are merged, not replaced.  On every run the issue keeps every
    assignee it had.  When the token is set and none of the run's remote
    calls (three at most) fails, the run does not fail and the issue's
    assignees are then exactly those it had together with those requested. *)
Theorem assignees_only_added_union (lib : Lib) (repository : str) (n : Z)
    (assignees E : list str) (w : world) :
  assignees_in (remote w) repository n = Some E ->
  exists E',
    assignees_in (remote (snd (AssignIssue._run lib repository n assignees w)))
      repository n = Some E'
    /\ incl E E'
    /\ (missing (token w) = false -> quiet 3 w = true ->
        is_failure (fst (AssignIssue._run lib repository n assignees w)) = false
        /\ forall x, In x E' <-> In x E \/ In x assignees).
Proof.
  intros H. destruct (assignees_in_found _ _ _ _ H) as [r [i [F [G HE]]]]. subst E.
  destruct (AssignIssue._run lib repository n assignees w) as [o w'] eqn:R.
  simpl fst; simpl snd.
  destruct (assign_effect _ _ _ _ _ _ _ R)
    as [_ [[U Same] | [r' [i' [written [_ [F' [G' [Ne [W O]]]]]]]]]].
  - exists (Issue.assignees i). rewrite U. split; [assumption|].
    split; [apply incl_refl|]. intros T Q.
    rewrite (assign_quiet lib repository n assignees w r i T) in R; try assumption.
    2:{ cbv zeta. destruct (truthy (minus assignees (Issue.assignees i)));
          [assumption | now apply quiet_less]. }
    cbv zeta in R.
    destruct (truthy (minus assignees (Issue.assignees i))) eqn:TA.
    + injection R as <- Hw. split; [reflexivity|].
      (* the write went through, yet the tracker is as before: nothing new *)
      pose proof (assignees_in_after_write (remote w) (remote w') repository n r i
                    (set_assignees
                       (union (Issue.assignees i)
                          (minus assignees (Issue.assignees i))) i)
                    (minus assignees (Issue.assignees i)) F G) as A.
      rewrite <- Hw in A. simpl remote in A.
      unfold write_issue in A. rewrite F, G in A. specialize (A eq_refl).
      rewrite <- Hw in U. simpl remote in U. rewrite U, H in A.
      injection A as A. intros x. rewrite A at 1. rewrite union_In, minus_In.
      destruct (mem x (Issue.assignees i)) eqn:M;
        [apply mem_In in M|apply mem_false in M]; tauto.
    + injection R as <- _. split; [reflexivity|].
      apply truthy_false, minus_nil in TA.
      intros x. split; [tauto|]. intros [Hx|Hx]; [assumption | now apply TA].
  - rewrite F in F'. injection F' as <-. rewrite G in G'. injection G' as <-.
    exists (union (Issue.assignees i) (minus assignees (Issue.assignees i))).
    split; [exact (assignees_in_after_write _ _ _ _ _ _ _ _ F G W)|].
    split; [intros x Hx; apply union_In; now left|].
    intros _ _. subst o. split; [reflexivity|].
    intros x. rewrite union_In, minus_In.
    destruct (mem x (Issue.assignees i)) eqn:M;
      [apply mem_In in M|apply mem_false in M]; tauto.
Qed.

Lemma assignees_only_added_union_witness :
  exists E',
    assignees_in
      (remote (snd (AssignIssue._run Sample.lib Sample.hello 3
                      [lit "bob"; lit "alice"] Sample.online))) Sample.hello 3
    = Some E'
    /\ incl [lit "alice"] E'
    /\ is_failure (fst (AssignIssue._run Sample.lib Sample.hello 3
                          [lit "bob"; lit "alice"] Sample.online)) = false
    /\ forall x, In x E' <-> In x [lit "alice"] \/ In x [lit "bob"; lit "alice"].
Proof.
  destruct (assignees_only_added_union Sample.lib Sample.hello 3
              [lit "bob"; lit "alice"] [lit "alice"] Sample.online eq_refl)
    as [E' [L [I K]]].
  exists E'. split; [exact L|]. split; [exact I|]. apply K; reflexivity.
Defined.

Lemma third_fault (w : world) (ev1 ev2 : event) (t1 t2 : tracker) :
  hd None (faults (step ev2 t2 (step ev1 t1 w))) = nth 2 (faults w) None.
Proof.
  simpl. destruct (faults w) as [|a [|b [|c l]]]; reflexivity.
Qed.

(** When the tracker refuses the assignment (the write raises), nobody is
    assigned: the batch fails whole.  Status 422 gives the result that names
    the whole batch of missing logins; 404 the issue-not-found result; any
    other API status the API error; any other exception the
    error-assigning result. *)
Theorem refused_assignment_assigns_nobody (lib : Lib) (repository : str) (n : Z)
    (assignees E : list str) (w : world) (e : exn) :
  missing (token w) = false -> quiet 2 w = true ->
  nth 2 (faults w) None = Some e ->
  assignees_in (remote w) repository n = Some E ->
  minus assignees E <> [] ->
  fst (AssignIssue._run lib repository n assignees w)
  = match e with
    | GithubException status m =>
        if (status =? 422)%Z then AssigneesRejected (minus assignees E)
        else if (status =? 404)%Z then IssueNotFound n repository
        else GithubApiError m
    | OtherException m => ErrorAssigningIssue m
    end
  /\ remote (snd (AssignIssue._run lib repository n assignees w)) = remote w
  /\ calls (snd (AssignIssue._run lib repository n assignees w))
     = calls w ++ [GetRepo repository; GetIssue repository n;
                   AddAssignees repository n (minus assignees E)].
Proof.
  intros T Q Third H Ne.
  destruct (assignees_in_found _ _ _ _ H) as [r [i [F [G HE]]]]. subst E.
  unfold AssignIssue._run. rewrite credential_pass by assumption.
  unfold try_except, bind.
  rewrite (get_repo_quiet 1 repository w r Q F).
  rewrite (get_issue_quiet 0 repository n _ r i (quiet_step _ _ _ _ Q) F G).
  fold (minus assignees (Issue.assignees i)).
  destruct (minus assignees (Issue.assignees i)) as [|a to_add] eqn:TA;
    [now elim Ne|].
  change (truthy (a :: to_add)) with true. cbv beta iota.
  unfold catch, bind, add_to_assignees.
  rewrite (remote_call_failed _ _ _ e);
    [|now rewrite third_fault].
  destruct e as [status m|m]; simpl.
  - destruct (status =? 422)%Z; simpl.
    + rewrite <- !app_assoc. repeat split.
    + destruct (status =? 404)%Z; simpl; rewrite <- !app_assoc; repeat split.
  - rewrite <- !app_assoc. repeat split.
Qed.

Lemma refused_assignment_assigns_nobody_witness :
  let w := {| token := Some (lit "ghp_token"); remote := [Sample.repo];
              faults := [None; None;
                         Some (GithubException 422 (lit "422 Validation Failed"))];
              calls := [] |} in
  fst (AssignIssue._run Sample.lib Sample.hello 1 [lit "nobody"] w)
  = AssigneesRejected [lit "nobody"]
  /\ remote (snd (AssignIssue._run Sample.lib Sample.hello 1 [lit "nobody"] w))
     = remote w
  /\ calls (snd (AssignIssue._run Sample.lib Sample.hello 1 [lit "nobody"] w))
     = [GetRepo Sample.hello; GetIssue Sample.hello 1;
        AddAssignees Sample.hello 1 [lit "nobody"]].
Proof.
  apply (refused_assignment_assigns_nobody Sample.lib Sample.hello 1 [lit "nobody"] []
           {| token := Some (lit "ghp_token"); remote := [Sample.repo];
              faults := [None; None;
                         Some (GithubException 422 (lit "422 Validation Failed"))];
              calls := [] |}
           (GithubException 422 (lit "422 Validation Failed")));
    try reflexivity.
  discriminate.
Defined.

(* ====================================================================== *)
(** ** More on comments *)
(* ====================================================================== *)

Lemma thread_in_found (t : tracker) (repository : str) (n : Z) (T : list str) :
  thread_in t repository n = Some T ->
  exists r i, find_repo repository t = Some r
              /\ find_issue n (Repo.issues r) = Some i /\ Issue.thread i = T.
Proof.
  unfold thread_in.
  destruct (find_repo repository t) as [r|] eqn:F; [|discriminate].
  destruct (find_issue n (Repo.issues r)) as [i|] eqn:G; [|discriminate].
  simpl. intros H. injection H as H. exists r, i. repeat split; assumption.
Qed.

(** A comment run never edits or deletes a comment and never posts twice:
    on every run the issue's thread is afterwards what it was, when the run
    failed, or what it was followed by the given body, unstripped, when it
    succeeded. *)
Theorem comments_are_only_appended (repository comment : str) (n : Z)
    (T : list str) (w : world) :
  thread_in (remote w) repository n = Some T ->
  thread_in (remote (snd (CommentOnIssue._run repository n comment w))) repository n
  = Some (if is_failure (fst (CommentOnIssue._run repository n comment w))
          then T else T ++ [comment]).
Proof.
  intros H. destruct (thread_in_found _ _ _ _ H) as [r [i [F [G HT]]]]. subst T.
  destruct (CommentOnIssue._run repository n comment w) as [o w'] eqn:R.
  simpl fst; simpl snd.
  destruct (comment_effect _ _ _ _ _ _ R) as [[Fl U] | [O [_ [written W]]]].
  - now rewrite Fl, U.
  - subst o. simpl is_failure.
    destruct (write_issue_found (add_comment comment) repository n (remote w) r i
                (fun j => eq_refl) F G) as [t1 [r1 [W1 [F1 [G1 _]]]]].
    rewrite W in W1. injection W1 as _ <-.
    unfold thread_in. now rewrite F1, G1.
Qed.

Lemma comments_are_only_appended_witness :
  thread_in
    (remote (snd (CommentOnIssue._run Sample.hello 1 (lit " On it. ") Sample.online)))
    Sample.hello 1
  = Some (if is_failure
               (fst (CommentOnIssue._run Sample.hello 1 (lit " On it. ")
                       Sample.online))
          then [] else [] ++ [lit " On it. "]).
Proof.
  apply (comments_are_only_appended Sample.hello (lit " On it. ") 1 [] Sample.online).
  reflexivity.
Defined.

(** A body with a character that is not whitespace, on an issue the
    tracker holds, with the token set and the three remote calls not failed:
    the run looks the repository and the issue up, creates the comment with
    the body as given, and returns the success result; the issue's labels
    and assignees are as they were. *)
Theorem comment_is_posted (repository comment : str) (n : Z) (w : world)
    (r : Repo.t) (i : Issue.t) :
  missing (token w) = false -> quiet 3 w = true ->
  find_repo repository (remote w) = Some r ->
  find_issue n (Repo.issues r) = Some i ->
  whitespace_only comment = false ->
  let w' := snd (CommentOnIssue._run repository n comment w) in
  fst (CommentOnIssue._run repository n comment w)
  = CommentAdded n (CommentOnIssue.comment_preview comment)
  /\ calls w' = calls w ++ [GetRepo repository; GetIssue repository n;
                            CreateComment repository n comment]
  /\ thread_in (remote w') repository n = Some (Issue.thread i ++ [comment])
  /\ labels_in (remote w') repository n = Some (Issue.labels i)
  /\ assignees_in (remote w') repository n = Some (Issue.assignees i).
Proof.
  intros T Q F G Blank. cbv zeta.
  destruct (write_issue_found (add_comment comment) repository n (remote w) r i
              (fun j => eq_refl) F G) as [t1 [r1 [W1 [F1 [G1 _]]]]].
  assert (R : CommentOnIssue._run repository n comment w
              = (CommentAdded n (CommentOnIssue.comment_preview comment),
                 step (CreateComment repository n comment) t1
                   (step (GetIssue repository n) (remote w)
                      (step (GetRepo repository) (remote w) w)))).
  { unfold CommentOnIssue._run. rewrite credential_pass by assumption.
    rewrite blank_test, Blank. unfold try_except, bind.
    rewrite (get_repo_quiet 2 repository w r Q F).
    rewrite (get_issue_quiet 1 repository n _ r i (quiet_step _ _ _ _ Q) F G).
    unfold create_comment.
    erewrite (remote_call_quiet 0);
      [reflexivity | now repeat apply quiet_step | exact W1]. }
  rewrite R. simpl fst; simpl snd. simpl remote. simpl calls.
  rewrite <- !app_assoc.
  unfold thread_in, labels_in, assignees_in. rewrite F1, G1.
  repeat split.
Qed.

Lemma comment_is_posted_witness :
  fst (CommentOnIssue._run Sample.hello 1 (lit " On it. ") Sample.online)
  = CommentAdded 1 (lit " On it. ")
  /\ calls (snd (CommentOnIssue._run Sample.hello 1 (lit " On it. ") Sample.online))
     = calls Sample.online
       ++ [GetRepo Sample.hello; GetIssue Sample.hello 1;
           CreateComment Sample.hello 1 (lit " On it. ")]
  /\ thread_in
       (remote (snd (CommentOnIssue._run Sample.hello 1 (lit " On it. ")
                       Sample.online))) Sample.hello 1
     = Some ([] ++ [lit " On it. "])
  /\ labels_in
       (remote (snd (CommentOnIssue._run Sample.hello 1 (lit " On it. ")
                       Sample.online))) Sample.hello 1 = Some []
  /\ assignees_in
       (remote (snd (CommentOnIssue._run Sample.hello 1 (lit " On it. ")
                       Sample.online))) Sample.hello 1 = Some [].
Proof.
  apply (comment_is_posted Sample.hello (lit " On it. ") 1 Sample.online Sample.repo
           (Sample.issue 1 [] [] 0 "open" false)); reflexivity.
Defined.

(* ====================================================================== *)
(** ** The entry point [run] *)
(* ====================================================================== *)

Lemma printed (lines : list str) (c : Main.console) :
  Main.stdout (fold_left (fun c line => Main.print line c) lines c)
    = Main.stdout c ++ lines
  /\ Main.stderr (fold_left (fun c line => Main.print line c) lines c)
     = Main.stderr c.
Proof.
  revert c; induction lines as [|l lines IH]; intros c; simpl.
  - now rewrite app_nil_r.
  - destruct (IH (Main.print l c)) as [O E]. rewrite O, E. simpl.
    now rewrite <- app_assoc.
Qed.

(** The listing returns the credential error exactly when the token is
    missing: no [except] branch produces that result. *)
Lemma listing_refuses_iff (lib : Lib) (repository since : str) (w : world) :
  fst (GetNewIssues._run lib repository since w) = CredentialMissing
  <-> missing (token w) = true.
Proof.
  split.
  - intros H. destruct (missing (token w)) eqn:T; [reflexivity|exfalso].
    unfold GetNewIssues._run in H. rewrite credential_pass in H by assumption.
    unfold try_except, bind in H.
    destruct (get_repo repository w) as [[e1|repo] w1];
      [destruct e1; discriminate H|].
    destruct (get_issues repo w1) as [[e2|issues] w2];
      [destruct e2; discriminate H|].
    unfold lift in H.
    destruct (GetNewIssues.loop lib since [] (firstn 20 issues)) as [e3|found];
      [destruct e3; discriminate H|].
    destruct (negb (truthy found)); discriminate H.
  - intros T. unfold GetNewIssues._run. now rewrite credential_gate.
Qed.

(** [run] starts the crew whether or not the token is set, and hands back
    exactly what the crew call returned or raised, with the world as that
    call left it.  It prints the four warning lines first exactly when the
    token is missing, which is exactly when the listing tool will answer
    with the credential error; then the three banner lines on success, or
    one line on [sys.stderr] with the exception's text when the call
    raised. *)
Theorem run_warns_then_reports (R : Type) (lib : Lib)
    (kickoff : world -> (exn + R) * world) (repository since : str)
    (w : world) (c : Main.console) :
  let result := fst (fst (Main.run kickoff w c)) in
  let c' := snd (Main.run kickoff w c) in
  (result, snd (fst (Main.run kickoff w c))) = kickoff w
  /\ Main.stdout c'
     = Main.stdout c
       ++ (if missing (token w) then Main.warning_lines else [])
       ++ (match result with inr _ => Main.banner_lines | inl _ => [] end)
  /\ Main.stderr c'
     = Main.stderr c
       ++ (match result with
           | inl e => [nl ++ cross_mark ++ lit " Error running crew: " ++ exn_str e]
           | inr _ => []
           end)
  /\ (missing (token w) = true
      <-> fst (GetNewIssues._run lib repository since w) = CredentialMissing).
Proof.
  cbv zeta. unfold Main.run.
  generalize Main.warning_lines as ws, Main.banner_lines as bs. intros ws bs.
  pose proof (listing_refuses_iff lib repository since w) as Gate.
  destruct (kickoff w) as [[e|result] w'] eqn:K;
    (split; [reflexivity|]); cbn [fst snd].
  - destruct (missing (token w)) eqn:T.
    + destruct (printed ws c) as [O E].
      unfold Main.print_err. cbn [Main.stdout Main.stderr].
      split; [now rewrite O, app_nil_r|]. split; [now rewrite E|]. tauto.
    + unfold Main.print_err. cbn [Main.stdout Main.stderr].
      split; [now rewrite app_nil_r|]. split; [reflexivity|]. tauto.
  - destruct (missing (token w)) eqn:T.
    + destruct (printed ws c) as [O E].
      destruct (printed bs (fold_left (fun c line => Main.print line c) ws c))
        as [O2 E2].
      split; [now rewrite O2, O, app_assoc|].
      split; [now rewrite E2, E, app_nil_r|]. tauto.
    + destruct (printed bs c) as [O2 E2].
      split; [now rewrite O2|]. split; [now rewrite E2, app_nil_r|]. tauto.
Qed.
